(** * Real-time fan-out of the CYBEV API server, and the User model's toJSON

    The development embeds these pieces of the repository:

    - the Socket.IO event handlers registered by [io.on('connection', ...)]
      in [server.js] (lines 995-1046): join, join-conversation,
      leave-conversation, typing, join-stream, leave-stream, stream-chat,
      stream-reaction and disconnect;
    - [userSchema.methods.toJSON] of [models/user.model.js]
      (lines 392-409), and the other methods and pre-save hooks of that
      model (lines 338-437);
    - the pre-save hooks of [models/post.model.js];
    - the auth middleware and the profile update of
      [routes/user-profile.routes.js];
    - the configuration flags of [server.js] and what /api/health
      reports of them;
    - [handleNotificationAction] of [www/native-bridge.js].

    The handlers are JavaScript closures over a socket; they run on top of
    the [socket.io] package ([require('socket.io')], server.js line 13),
    whose code is a dependency and not part of the repository.  Module
    [SocketIO] below gives the behaviour of the four calls the handlers
    make ([socket.join], [socket.leave], [socket.to(room).emit],
    [io.to(room).emit]) and of the connection lifecycle, as the package's
    in-memory room adapter performs them; this is the Room Router and the
    Connection Registry of the specification (sections 4.1 and 4.2). *)

From Stdlib Require Import Ascii.
From stdpp Require Import gmap strings list fin_maps sets pretty.

Set Warnings "-register-all".
Open Scope string_scope.

(** ** JavaScript values and the few language operations the code uses *)

Module JS.

(** Values that reach the handlers: what [JSON.parse] produces, plus
    [undefined] (an event emitted without argument, or a property that
    is absent).  A number is carried by its canonical rendering, the
    string [Number.prototype.toString] yields for it: the code under
    study never computes with numbers, it only interpolates them into
    room names or passes them along.  An object is the list of its own
    enumerable properties in creation order. *)
Inductive JSValue : Type :=
| JUndefined
| JNull
| JBool (b : bool)
| JNum (repr : string)
| JStr (s : string)
| JArr (elems : list JSValue)
| JObj (fields : list (string * JSValue)).

(** The one kind of error the code under study can raise. *)
Inductive JSError : Type :=
| TypeError (msg : string).

(** Completion of a piece of JavaScript: a value, or a thrown error. *)
Inductive completion (A : Type) : Type :=
| Normal (a : A)
| Throw (e : JSError).
Arguments Normal {A} a.
Arguments Throw {A} e.

#[global] Instance completion_ret : MRet completion := @Normal.
#[global] Instance completion_bind : MBind completion :=
  fun A B (k : A -> completion B) (c : completion A) =>
    match c with
    | Normal a => k a
    | Throw e => Throw e
    end.

(** Whether a completion is a normal one. *)
Definition is_normal {A} (c : completion A) : bool :=
  match c with Normal _ => true | Throw _ => false end.

(** Own-property lookup in an object's property list. *)
Fixpoint own (fields : list (string * JSValue)) (k : string) : option JSValue :=
  match fields with
  | [] => None
  | (k', v) :: rest => if decide (k' = k) then Some v else own rest k
  end.

(** Whether [k] names an own property. *)
Definition has_own (k : string) (fields : list (string * JSValue)) : bool :=
  bool_decide (k ∈ fields.*1).

(** [delete o.k] on a property list. *)
Definition delete_own (k : string) (fields : list (string * JSValue))
  : list (string * JSValue) :=
  filter (fun kv => kv.1 <> k) fields.

(** ToString, as a template literal applies it to an interpolated value.
    An array is rendered by [Array.prototype.join]: elements separated
    by commas, [undefined] and [null] rendered empty.  A plain object is
    rendered by [Object.prototype.toString]; when the object shadows
    [toString] with an own property (which, coming from JSON, cannot be
    a function), no conversion method is callable and a TypeError is
    thrown. *)
Fixpoint ToString (v : JSValue) : completion string :=
  match v with
  | JUndefined => Normal "undefined"
  | JNull => Normal "null"
  | JBool true => Normal "true"
  | JBool false => Normal "false"
  | JNum repr => Normal repr
  | JStr s => Normal s
  | JArr elems =>
      let element (e : JSValue) : completion string :=
        match e with
        | JUndefined | JNull => Normal ""
        | _ => ToString e
        end in
      (fix join (l : list JSValue) : completion string :=
         match l with
         | [] => Normal ""
         | [e] => element e
         | e :: rest =>
             s ← element e;
             t ← join rest;
             Normal (s ++ "," ++ t)
         end) elems
  | JObj fields =>
      if has_own "toString" fields
      then Throw (TypeError "Cannot convert object to primitive value")
      else Normal "[object Object]"
  end.

(** A template literal with one interpolation: [`prefix${v}`]. *)
Definition template (prefix : string) (v : JSValue) : completion string :=
  s ← ToString v; Normal (prefix ++ s).

(** ToBoolean, for [if (x)]. *)
Definition truthy (v : JSValue) : bool :=
  match v with
  | JUndefined | JNull => false
  | JBool b => b
  | JNum repr => negb (bool_decide (repr = "0") || bool_decide (repr = "NaN"))
  | JStr s => negb (bool_decide (s = ""))
  | JArr _ | JObj _ => true
  end.

(** An object-pattern parameter [({a, b}) => ...] first requires its
    argument to be neither [undefined] nor [null]. *)
Definition RequireObjectCoercible (v : JSValue) : completion unit :=
  match v with
  | JUndefined => Throw (TypeError "Cannot destructure 'undefined' as it is undefined.")
  | JNull => Throw (TypeError "Cannot destructure 'null' as it is null.")
  | _ => Normal ()
  end.

(** Reading property [k] in such a pattern.  None of the names the code
    reads (conversationId, userId, isTyping, streamId, message, emoji,
    oauthProfile) exists on a built-in prototype, so the read is the
    own-property lookup on an object and [undefined] on anything else. *)
Definition Get (v : JSValue) (k : string) : JSValue :=
  match v with
  | JObj fields => default JUndefined (own fields k)
  | _ => JUndefined
  end.

End JS.

(** ** The Socket.IO server object: registry, rooms and fan-out *)

Module SocketIO.
Import JS.

(** Socket ids and room names are JavaScript strings. *)
Abbreviation SocketId := string (only parsing).
Abbreviation Room := string (only parsing).

(** What [emit(event, data)] hands to a client's transport. *)
Record Packet : Type := mkPacket {
  event : string;
  data : JSValue
}.

(** The state the handlers of [server.js] act on:
    - [sockets]: the connected sockets (the Connection Registry);
    - [rooms]: room name -> member socket ids;
    - [sids]: socket id -> names of the rooms it is in;
    - [outbox]: per socket, the packets written to its transport, oldest
      first (what that client observes, in order);
    - [console]: the lines printed by [console.log], oldest first. *)
Record Server : Type := mkServer {
  sockets : gset string;
  rooms : gmap string (gset string);
  sids : gmap string (gset string);
  outbox : gmap string (list Packet);
  console : list string
}.

(** The server before any connection. *)
Definition init : Server :=
  {| sockets := ∅; rooms := ∅; sids := ∅; outbox := ∅; console := [] |}.

(** The member set a room map gives a room. *)
Definition room_members (rs : gmap string (gset string)) (room : Room) : gset string :=
  default ∅ (rs !! room).

(** Members of a room; a room without entry has none. *)
Definition members (σ : Server) (room : Room) : gset string :=
  room_members (rooms σ) room.

(** [socket.rooms]: the rooms a socket is in. *)
Definition membershipsOf (σ : Server) (id : SocketId) : gset string :=
  default ∅ (sids σ !! id).

(** The packets a client has been sent so far. *)
Definition received (σ : Server) (id : SocketId) : list Packet :=
  default [] (outbox σ !! id).

(** Adapter, adding a socket to a room: the room entry is created on
    first join, and so is the socket's own entry. *)
Definition addAll (id : SocketId) (room : Room) (σ : Server) : Server :=
  {| sockets := sockets σ;
     rooms := <[room := {[id]} ∪ members σ room]> (rooms σ);
     sids := <[id := {[room]} ∪ membershipsOf σ id]> (sids σ);
     outbox := outbox σ;
     console := console σ |}.

(** Adapter, removing a socket from one room's member set; a room left
    without member is discarded. *)
Definition _del (room : Room) (id : SocketId) (rs : gmap string (gset string))
  : gmap string (gset string) :=
  match rs !! room with
  | Some ms =>
      if decide (ms ∖ {[id]} = ∅) then delete room rs
      else <[room := ms ∖ {[id]}]> rs
  | None => rs
  end.

(** Adapter, removing a socket from a room: the room is dropped from the
    socket's own entry, and the socket from the room's member set. *)
Definition del (id : SocketId) (room : Room) (σ : Server) : Server :=
  {| sockets := sockets σ;
     rooms := _del room id (rooms σ);
     sids := match sids σ !! id with
             | Some mine => <[id := mine ∖ {[room]}]> (sids σ)
             | None => sids σ
             end;
     outbox := outbox σ;
     console := console σ |}.

(** Adapter, removing a socket from every room it is in, and dropping
    its entry. *)
Definition delAll (id : SocketId) (σ : Server) : Server :=
  match sids σ !! id with
  | None => σ
  | Some mine =>
      {| sockets := sockets σ;
         rooms := foldr (fun room rs => _del room id rs) (rooms σ) (elements mine);
         sids := delete id (sids σ);
         outbox := outbox σ;
         console := console σ |}
  end.

(** One packet written to one client's transport. *)
Definition write (p : Packet) (id : SocketId) (σ : Server) : Server :=
  {| sockets := sockets σ;
     rooms := rooms σ;
     sids := sids σ;
     outbox := <[id := (received σ id ++ [p])%list]> (outbox σ);
     console := console σ |}.

(** The sockets a broadcast to [room] reaches: the members of the room
    that are not excepted and are connected. *)
Definition recipients (σ : Server) (room : Room) (except : gset string) : gset string :=
  filter (fun id => id ∈ sockets σ) (members σ room ∖ except).

(** Adapter, broadcasting a packet to a room. *)
Definition broadcast (room : Room) (except : gset string) (p : Packet) (σ : Server)
  : Server :=
  foldr (write p) σ (elements (recipients σ room except)).

(** [socket.join(room)]: the adapter adds the socket to the room; once
    the socket has closed, Socket.IO has replaced its [join] by a
    function that does nothing. *)
Definition socket_join (socket : SocketId) (room : Room) (σ : Server) : Server :=
  if decide (socket ∈ sockets σ) then addAll socket room σ else σ.

(** [socket.leave(room)] *)
Definition socket_leave (socket : SocketId) (room : Room) : Server -> Server :=
  del socket room.

(** [socket.to(room).emit(ev, arg)]: every member of the room but the
    socket itself. *)
Definition socket_to_emit (socket : SocketId) (room : Room) (ev : string) (arg : JSValue)
  : Server -> Server :=
  broadcast room {[socket]} (mkPacket ev arg).

(** [io.to(room).emit(ev, arg)]: every member of the room. *)
Definition io_to_emit (room : Room) (ev : string) (arg : JSValue) : Server -> Server :=
  broadcast room ∅ (mkPacket ev arg).

(** A transport handshake completes: the socket is registered and joins
    the room named by its own id. *)
Definition connect (id : SocketId) (σ : Server) : Server :=
  addAll id id
    {| sockets := {[id]} ∪ sockets σ;
       rooms := rooms σ;
       sids := sids σ;
       outbox := outbox σ;
       console := console σ |}.

(** A connection closes: the socket leaves all its rooms and is removed
    from the registry. *)
Definition close (id : SocketId) (σ : Server) : Server :=
  let σ' := delAll id σ in
  {| sockets := sockets σ' ∖ {[id]};
     rooms := rooms σ';
     sids := sids σ';
     outbox := outbox σ';
     console := console σ' |}.

(** The shape every state the server reaches has: room members are
    connected sockets, and the two membership maps agree. *)
Record wf (σ : Server) : Prop := {
  wf_connected : ∀ room id, id ∈ members σ room → id ∈ sockets σ;
  wf_sids : ∀ room id, id ∈ members σ room ↔ room ∈ membershipsOf σ id
}.

(** The same, as a test that can be run on a given state. *)
Definition wf_check (σ : Server) : bool :=
  bool_decide (map_Forall (fun room ms =>
                 set_Forall (fun id => id ∈ sockets σ ∧ room ∈ membershipsOf σ id) ms)
               (rooms σ))
  && bool_decide (map_Forall (fun id mine =>
                    set_Forall (fun room => id ∈ members σ room) mine)
                  (sids σ)).

End SocketIO.

(** ** The handlers of server.js *)

Module Handlers.
Import JS SocketIO.

(** [console.log(line)] *)
Definition console_log (line : string) (σ : Server) : Server :=
  {| sockets := sockets σ;
     rooms := rooms σ;
     sids := sids σ;
     outbox := outbox σ;
     console := (console σ ++ [line])%list |}.

(** [socket.on('join', (userId) => ...)] *)
Definition on_join (socket : SocketId) (userId : JSValue) (σ : Server)
  : completion Server :=
  room ← template "user:" userId;
  let σ := socket_join socket room σ in
  u ← ToString userId;
  Normal (console_log ("User " ++ u ++ " joined their room") σ).

(** [socket.on('join-conversation', (conversationId) => ...)] *)
Definition on_join_conversation (socket : SocketId) (conversationId : JSValue)
    (σ : Server) : completion Server :=
  room ← template "conversation:" conversationId;
  Normal (socket_join socket room σ).

(** [socket.on('leave-conversation', (conversationId) => ...)] *)
Definition on_leave_conversation (socket : SocketId) (conversationId : JSValue)
    (σ : Server) : completion Server :=
  room ← template "conversation:" conversationId;
  Normal (socket_leave socket room σ).

(** [socket.on('typing', ({ conversationId, userId, isTyping }) => ...)] *)
Definition on_typing (socket : SocketId) (payload : JSValue) (σ : Server)
  : completion Server :=
  _ ← RequireObjectCoercible payload;
  let conversationId := Get payload "conversationId" in
  let userId := Get payload "userId" in
  let isTyping := Get payload "isTyping" in
  room ← template "conversation:" conversationId;
  Normal (socket_to_emit socket room "user-typing"
            (JObj [("userId", userId); ("isTyping", isTyping)]) σ).

(** [socket.on('join-stream', (streamId) => ...)] *)
Definition on_join_stream (socket : SocketId) (streamId : JSValue) (σ : Server)
  : completion Server :=
  room ← template "stream:" streamId;
  let σ := socket_join socket room σ in
  room' ← template "stream:" streamId;
  Normal (socket_to_emit socket room' "viewer-joined"
            (JObj [("socketId", JStr socket)]) σ).

(** [socket.on('leave-stream', (streamId) => ...)] *)
Definition on_leave_stream (socket : SocketId) (streamId : JSValue) (σ : Server)
  : completion Server :=
  room ← template "stream:" streamId;
  let σ := socket_leave socket room σ in
  room' ← template "stream:" streamId;
  Normal (socket_to_emit socket room' "viewer-left"
            (JObj [("socketId", JStr socket)]) σ).

(** [socket.on('stream-chat', ({ streamId, message }) => ...)] *)
Definition on_stream_chat (socket : SocketId) (payload : JSValue) (σ : Server)
  : completion Server :=
  _ ← RequireObjectCoercible payload;
  let streamId := Get payload "streamId" in
  let message := Get payload "message" in
  room ← template "stream:" streamId;
  Normal (io_to_emit room "chat-message" message σ).

(** [socket.on('stream-reaction', ({ streamId, emoji, userId }) => ...)] *)
Definition on_stream_reaction (socket : SocketId) (payload : JSValue) (σ : Server)
  : completion Server :=
  _ ← RequireObjectCoercible payload;
  let streamId := Get payload "streamId" in
  let emoji := Get payload "emoji" in
  let userId := Get payload "userId" in
  room ← template "stream:" streamId;
  Normal (io_to_emit room "reaction"
            (JObj [("emoji", emoji); ("userId", userId)]) σ).

(** [socket.on('disconnect', () => ...)] *)
Definition on_disconnect_listener (socket : SocketId) (σ : Server) : Server :=
  console_log ("🔌 User disconnected: " ++ socket) σ.

(** The events a client can emit, each with the argument the listener
    receives ([JUndefined] when the client sent none). *)
Inductive Event : Type :=
| join (userId : JSValue)
| join_conversation (conversationId : JSValue)
| leave_conversation (conversationId : JSValue)
| typing (payload : JSValue)
| join_stream (streamId : JSValue)
| leave_stream (streamId : JSValue)
| stream_chat (payload : JSValue)
| stream_reaction (payload : JSValue).

(** The listener table built by the [socket.on] calls. *)
Definition handle (socket : SocketId) (ev : Event) (σ : Server) : completion Server :=
  match ev with
  | join userId => on_join socket userId σ
  | join_conversation conversationId => on_join_conversation socket conversationId σ
  | leave_conversation conversationId => on_leave_conversation socket conversationId σ
  | typing payload => on_typing socket payload σ
  | join_stream streamId => on_join_stream socket streamId σ
  | leave_stream streamId => on_leave_stream socket streamId σ
  | stream_chat payload => on_stream_chat socket payload σ
  | stream_reaction payload => on_stream_reaction socket payload σ
  end.

(** An inbound event reaches the listeners of its socket only while the
    socket is connected; a packet for a socket that is gone is ignored. *)
Definition dispatch (socket : SocketId) (ev : Event) (σ : Server) : completion Server :=
  if decide (socket ∈ sockets σ) then handle socket ev σ else Normal σ.

(** [io.on('connection', (socket) => ...)]: runs once the socket is
    registered; logs, then installs the listeners above. *)
Definition on_connection (socket : SocketId) (σ : Server) : Server :=
  console_log ("🔌 User connected: " ++ socket) (connect socket σ).

(** Disconnect of a socket: a connected socket is closed, then its
    'disconnect' listener runs; for a socket already closed nothing
    happens. *)
Definition on_disconnect (socket : SocketId) (σ : Server) : Server :=
  if decide (socket ∈ sockets σ)
  then on_disconnect_listener socket (close socket σ)
  else σ.

(** What the event loop processes, one item to completion at a time. *)
Inductive Input : Type :=
| Connect (socket : SocketId)
| Emit (socket : SocketId) (ev : Event)
| Disconnect (socket : SocketId).

(** One input processed.  A listener that throws is not caught by
    anything in [server.js]: the error is the outcome of the step. *)
Definition step (σ : Server) (i : Input) : completion Server :=
  match i with
  | Connect socket => Normal (on_connection socket σ)
  | Emit socket ev => dispatch socket ev σ
  | Disconnect socket => Normal (on_disconnect socket σ)
  end.

(** The inputs processed in order, up to the first uncaught error. *)
Fixpoint run (σ : Server) (inputs : list Input) : completion Server :=
  match inputs with
  | [] => Normal σ
  | i :: rest => σ' ← step σ i; run σ' rest
  end.

(** The states the server can be in: those some sequence of inputs
    leads to from the start. *)
Definition reachable (σ : Server) : Prop :=
  ∃ inputs, run init inputs = Normal σ.

End Handlers.

(** ** models/user.model.js: what a user document serializes to *)

Module User.
Import JS.

(** [delete v.k]: removes an own property of an object; on any other
    value there is no such property and nothing happens. *)
Definition delete_prop (k : string) (v : JSValue) : JSValue :=
  match v with
  | JObj fields => JObj (delete_own k fields)
  | _ => v
  end.

(** The body of the [forEach] callback, for one provider entry
    [obj.oauthProfile[provider]]. *)
Definition strip_provider (entry : JSValue) : JSValue :=
  if truthy entry
  then delete_prop "accessSecret"
         (delete_prop "refreshToken"
            (delete_prop "accessToken" entry))
  else entry.

(** [Object.keys(obj.oauthProfile).forEach(provider => ...)]: every own
    enumerable property of the profile is visited once and its value
    stripped in place.  A primitive profile has no property holding an
    object, so the loop leaves it as it is. *)
Definition strip_profile (profile : JSValue) : JSValue :=
  match profile with
  | JObj entries => JObj (prod_map id strip_provider <$> entries)
  | JArr elems => JArr (strip_provider <$> elems)
  | _ => profile
  end.

(** [userSchema.methods.toJSON], applied to the property list of the
    plain object [this.toObject()] returns. *)
Definition toJSON (doc : list (string * JSValue)) : list (string * JSValue) :=
  let obj := delete_own "password" doc in
  let obj := delete_own "resetPasswordToken" obj in
  let obj := delete_own "emailVerificationToken" obj in
  let obj := delete_own "twoFactorSecret" obj in
  let obj := delete_own "backupCodes" obj in
  if truthy (Get (JObj obj) "oauthProfile")
  then (fun kv => if decide (kv.1 = "oauthProfile")
                  then (kv.1, strip_profile kv.2) else kv) <$> obj
  else obj.

(** Whether value [v] has an own property named [k]. *)
Definition has_prop (k : string) (v : JSValue) : bool :=
  match v with
  | JObj fields => has_own k fields
  | _ => false
  end.

(** The values held by the own properties of [v]. *)
Definition entries_of (v : JSValue) : list JSValue :=
  match v with
  | JObj fields => fields.*2
  | JArr elems => elems
  | _ => []
  end.

End User.

(** ** The specification's words for failure handling *)

Module Spec.
Import JS SocketIO Handlers.

(** An operation fails loudly when it raises or prints to the console. *)
Definition fails_loudly (σ : Server) (c : completion Server) : Prop :=
  ∀ σ', c = Normal σ' → console σ' ≠ console σ.

(** An event is dropped with a warning when its handler returns, no
    client is sent anything, and a line is printed. *)
Definition dropped_with_warning (σ : Server) (c : completion Server) : Prop :=
  ∃ σ', c = Normal σ' ∧ (∀ id, received σ' id = received σ id)
        ∧ console σ' ≠ console σ.

(** The step from [σ] to [σ'] did nothing but broadcast [p] to [room]. *)
Definition broadcast_only (σ σ' : Server) (room : string) (except : gset string)
    (p : Packet) : Prop :=
  sockets σ' = sockets σ ∧ rooms σ' = rooms σ ∧ sids σ' = sids σ
  ∧ console σ' = console σ
  ∧ ∀ c, received σ' c
         = if decide (c ∈ recipients σ room except)
           then (received σ c ++ [p])%list else received σ c.

End Spec.

(** ** Concrete runs and payloads used as examples *)

Module Scenario.
Import JS SocketIO Handlers.

(** The state the server is in after processing [inputs] from start. *)
Definition state_after (inputs : list Input) : Server :=
  match run init inputs with
  | Normal σ => σ
  | Throw _ => init
  end.

(** X is connected and alone in stream:s1. *)
Definition alone : Server :=
  state_after [Connect "X"; Emit "X" (join_stream (JStr "s1"))].

(** X and Y are connected; only Y is in stream:s1 and conversation:c1. *)
Definition viewers : Server :=
  state_after [Connect "X"; Connect "Y";
               Emit "Y" (join_stream (JStr "s1"));
               Emit "Y" (join_conversation (JStr "c1"))].

(** A, B and C are connected and all in conversation:c1. *)
Definition conversation : Server :=
  state_after [Connect "A"; Connect "B"; Connect "C";
               Emit "A" (join_conversation (JStr "c1"));
               Emit "B" (join_conversation (JStr "c1"));
               Emit "C" (join_conversation (JStr "c1"))].

(** X is in user:u1 and conversation:c1, Y in conversation:c1. *)
Definition joined : Server :=
  state_after [Connect "X"; Connect "Y";
               Emit "X" (join (JStr "u1"));
               Emit "X" (join_conversation (JStr "c1"));
               Emit "Y" (join_conversation (JStr "c1"))].

(** Well-formed payloads. *)
Definition chat_hi : JSValue :=
  JObj [("streamId", JStr "s1"); ("message", JStr "hi")].

Definition reaction_heart : JSValue :=
  JObj [("streamId", JStr "s1"); ("emoji", JStr "<3"); ("userId", JStr "u1")].

Definition typing_on : JSValue :=
  JObj [("conversationId", JStr "c1"); ("userId", JStr "u1"); ("isTyping", JBool true)].

Definition typing_off : JSValue :=
  JObj [("conversationId", JStr "c1"); ("userId", JStr "u1"); ("isTyping", JBool false)].

(** A stream-chat payload whose message is missing. *)
Definition chat_no_message : JSValue := JObj [("streamId", JStr "s1")].

(** X connected and then disconnected: X is no longer registered. *)
Definition departed : Server :=
  state_after [Connect "X"; Disconnect "X"].

(** A payload with every field missing. *)
Definition empty_payload : JSValue := JObj [].

(** X and Y are connected and both in stream:undefined; Y is also in
    conversation:undefined. *)
Definition undefined_room : Server :=
  state_after [Connect "X"; Connect "Y";
               Emit "X" (join_stream JUndefined);
               Emit "Y" (join_stream JUndefined);
               Emit "Y" (join_conversation JUndefined)].

(** A user document, as [toObject()] returns it. *)
Definition sample_user : list (string * JSValue) :=
  [("_id", JStr "64b0c0ffee");
   ("name", JStr "Ada");
   ("email", JStr "ada@example.org");
   ("password", JStr "$2a$10$hash");
   ("oauthProfile",
     JObj [("google", JObj [("id", JStr "g-1"); ("accessToken", JStr "ya29");
                            ("refreshToken", JStr "1//r")]);
           ("twitter", JObj [("id", JStr "t-1"); ("accessToken", JStr "tok");
                             ("accessSecret", JStr "sec")])]);
   ("twoFactorSecret", JStr "JBSWY3DP");
   ("backupCodes", JArr [JObj [("code", JStr "1234"); ("used", JBool false)]])].

End Scenario.

(** ** Notions used to state what the handlers leave alone *)

Module Notions.
Import JS SocketIO Handlers.

(** The prefix of the rooms an event names: the literal part of the
    template string in its handler. *)
Definition namespace (ev : Event) : string :=
  match ev with
  | join _ => "user:"
  | join_conversation _ | leave_conversation _ | typing _ => "conversation:"
  | join_stream _ | leave_stream _ | stream_chat _ | stream_reaction _ => "stream:"
  end.

(** Between [σ] and [σ'] the registry is the same, and so are the
    memberships of every socket other than [X]. *)
Definition others_untouched (X : string) (σ σ' : Server) : Prop :=
  sockets σ' = sockets σ
  ∧ ∀ Y, Y ≠ X →
      membershipsOf σ' Y = membershipsOf σ Y
      ∧ ∀ room, Y ∈ members σ' room ↔ Y ∈ members σ room.

(** The events whose handler calls no [emit]. *)
Definition emits_nothing (ev : Event) : bool :=
  match ev with
  | join _ | join_conversation _ | leave_conversation _ => true
  | _ => false
  end.

(** The events whose handler emits through [socket.to], which leaves
    the sender out. *)
Definition spares_sender (ev : Event) : bool :=
  match ev with
  | typing _ | join_stream _ | leave_stream _ => true
  | _ => false
  end.

End Notions.

(** ** models/user.model.js: instance methods and pre-save hooks *)

Module UserMethods.
Import JS.

(** The values the schema allows in [linkedProviders], which are also the
    provider names the methods are called with. *)
Inductive Provider : Type :=
| google | facebook | apple | twitter | email.

#[global] Instance Provider_eq_dec : EqDecision Provider.
Proof. solve_decision. Defined.

(** The paths of a user document the methods and hooks below read or
    write.  [None] stands for a path that is [undefined] or [null]. *)
Record Doc : Type := mkDoc {
  email_address : option string;
  username : option string;
  password : option string;
  oauthProvider : option Provider;
  oauthId : option string;
  oauthProfile : option (Provider -> JSValue);
  linkedProviders : option (list Provider);
  followerCount : Z;
  followersCount : Z
}.

(** ToBoolean of a string path: a string is truthy unless empty. *)
Definition set_path (s : option string) : bool :=
  match s with
  | Some s => negb (bool_decide (s = ""))
  | None => false
  end.

Definition with_username (u : option string) (d : Doc) : Doc :=
  mkDoc (email_address d) u (password d) (oauthProvider d) (oauthId d)
        (oauthProfile d) (linkedProviders d) (followerCount d) (followersCount d).

Definition with_oauth (p : option Provider) (i : option string) (d : Doc) : Doc :=
  mkDoc (email_address d) (username d) (password d) p i
        (oauthProfile d) (linkedProviders d) (followerCount d) (followersCount d).

Definition with_oauthProfile (o : option (Provider -> JSValue)) (d : Doc) : Doc :=
  mkDoc (email_address d) (username d) (password d) (oauthProvider d) (oauthId d)
        o (linkedProviders d) (followerCount d) (followersCount d).

Definition with_linkedProviders (l : option (list Provider)) (d : Doc) : Doc :=
  mkDoc (email_address d) (username d) (password d) (oauthProvider d) (oauthId d)
        (oauthProfile d) l (followerCount d) (followersCount d).

Definition with_counts (a b : Z) (d : Doc) : Doc :=
  mkDoc (email_address d) (username d) (password d) (oauthProvider d) (oauthId d)
        (oauthProfile d) (linkedProviders d) a b.

(** [this.linkedProviders.includes(p)]: reading [includes] off an
    undefined path throws. *)
Definition includes (l : option (list Provider)) (p : Provider) : completion bool :=
  match l with
  | Some l => Normal (bool_decide (p ∈ l))
  | None => Throw (TypeError "Cannot read properties of undefined (reading 'includes')")
  end.

(** [obj[p] = v] on a provider table. *)
Definition assign (p : Provider) (v : JSValue) (o : Provider -> JSValue)
  : Provider -> JSValue :=
  fun q => if decide (q = p) then v else o q.

(** [oauthProfile] is a nested path of the schema, with one nested path
    per OAuth provider below it.  What reading [this.oauthProfile] and
    [this.oauthProfile[provider]] gives on a document, and what assigning
    to them does to what the document keeps under the path, is decided
    by Mongoose and not by the semantics of a plain object.  The two
    methods below take these four operations as given:
    - [profile_truthy]: ToBoolean of [this.oauthProfile];
    - [profile_reset]: [this.oauthProfile = {}];
    - [entry_read]: [this.oauthProfile[provider]];
    - [entry_write]: [this.oauthProfile[provider] = value]. *)
Record NestedPath : Type := mkNestedPath {
  profile_truthy : option (Provider -> JSValue) -> bool;
  profile_reset : option (Provider -> JSValue) -> option (Provider -> JSValue);
  entry_read : option (Provider -> JSValue) -> Provider -> JSValue;
  entry_write : Provider -> JSValue -> option (Provider -> JSValue)
                -> option (Provider -> JSValue)
}.

(** The four operations as a plain object has them: one instance of the
    interface, used to run the methods on examples. *)
Definition plain_object : NestedPath :=
  {| profile_truthy := fun o => match o with Some _ => true | None => false end;
     profile_reset := fun _ => Some (fun _ => JUndefined);
     entry_read := fun o p => match o with Some table => table p | None => JUndefined end;
     entry_write := fun p v o => Some (assign p v (default (fun _ => JUndefined) o)) |}.

(** [userSchema.methods.canUsePassword] *)
Definition canUsePassword (d : Doc) : completion bool :=
  if set_path (password d) then includes (linkedProviders d) email
  else Normal false.

(** [userSchema.methods.linkProvider] *)
Definition linkProvider (M : NestedPath) (provider : Provider) (profileData : JSValue)
    (d : Doc) : completion Doc :=
  let d := if negb (profile_truthy M (oauthProfile d))
           then with_oauthProfile (profile_reset M (oauthProfile d)) d
           else d in
  let d := with_oauthProfile (entry_write M provider profileData (oauthProfile d)) d in
  linked ← includes (linkedProviders d) provider;
  if negb linked
  then Normal (with_linkedProviders
                 (Some (default [] (linkedProviders d) ++ [provider])%list) d)
  else Normal d.

(** [userSchema.methods.unlinkProvider] *)
Definition unlinkProvider (M : NestedPath) (provider : Provider) (d : Doc)
  : completion Doc :=
  let d :=
    if profile_truthy M (oauthProfile d)
       && truthy (entry_read M (oauthProfile d) provider)
    then with_oauthProfile (entry_write M provider JUndefined (oauthProfile d)) d
    else d in
  match linkedProviders d with
  | None => Throw (TypeError "Cannot read properties of undefined (reading 'filter')")
  | Some l =>
      let d := with_linkedProviders (Some (filter (fun p => p <> provider) l)) d in
      if decide (oauthProvider d = Some provider)
      then Normal (with_oauth None None d)
      else Normal d
  end.

(** The third [pre('save')] hook, "Initialize linkedProviders based on
    how user signed up"; [isNew] is the document's flag. *)
Definition initLinkedProviders (isNew : bool) (d : Doc) : Doc :=
  if isNew then
    let l := default [] (linkedProviders d) in
    let l := match oauthProvider d with
             | Some p => if bool_decide (p ∈ l) then l else (l ++ [p])%list
             | None => l
             end in
    let l := if set_path (password d) && negb (bool_decide (email ∈ l))
             then (l ++ [email])%list else l in
    with_linkedProviders (Some l) d
  else d.

(** The fourth [pre('save')] hook, "Sync followerCount and
    followersCount".  [modFollower] and [modFollowers] are what
    [isModified] answers for the two paths when the hook starts;
    [marked] is whether the hook's first assignment makes [isModified]
    answer true for followersCount, which is for Mongoose to decide. *)
Definition syncFollowerCounts (modFollower modFollowers marked : bool) (d : Doc) : Doc :=
  let d := if modFollower then with_counts (followerCount d) (followerCount d) d else d in
  if modFollowers || (modFollower && marked)
  then with_counts (followersCount d) (followersCount d) d
  else d.

(** [s.split(sep)] for a one-character separator. *)
Fixpoint split_on (sep : Ascii.ascii) (s : string) : list string :=
  match s with
  | EmptyString => [""]
  | String c rest =>
      if decide (c = sep) then "" :: split_on sep rest
      else match split_on sep rest with
           | piece :: pieces => String c piece :: pieces
           | [] => [String c ""]
           end
  end.

(** Membership in the class [a-z0-9]. *)
Definition is_lower_alnum (c : Ascii.ascii) : bool :=
  let n := Ascii.nat_of_ascii c in
  (Nat.leb 97 n && Nat.leb n 122) || (Nat.leb 48 n && Nat.leb n 57).

(** [s.replace(/[^a-z0-9]/g, '')] *)
Fixpoint keep_lower_alnum (s : string) : string :=
  match s with
  | EmptyString => ""
  | String c rest =>
      if is_lower_alnum c then String c (keep_lower_alnum rest)
      else keep_lower_alnum rest
  end.

(** [email.split('@')[0].toLowerCase().replace(/[^a-z0-9]/g, '')];
    [toLowerCase] is JavaScript's, taken as given. *)
Definition baseUsername (toLowerCase : string -> string) (addr : string) : string :=
  keep_lower_alnum (toLowerCase (default "" (head (split_on "@"%char addr)))).

(** The [while (await findOne({ username }))] loop: [taken] holds the
    usernames for which the collection has a document, [username] and
    [counter] are the loop's variables, [fuel] bounds the iterations. *)
Fixpoint findFree (taken : gset string) (base username : string) (counter fuel : nat)
  : option string :=
  match fuel with
  | 0 => None
  | S fuel =>
      if decide (username ∈ taken)
      then findFree taken base (base ++ pretty counter) (S counter) fuel
      else Some username
  end.

(** The second [pre('save')] hook, "Auto-generate username from email if
    not provided". *)
Definition autoUsername (toLowerCase : string -> string) (taken : gset string)
    (fuel : nat) (d : Doc) : option Doc :=
  match email_address d with
  | Some addr =>
      if negb (set_path (username d)) && set_path (Some addr)
      then
        let base := baseUsername toLowerCase addr in
        u ← findFree taken base base 1 fuel;
        Some (with_username (Some u) d)
      else Some d
  | None => Some d
  end.

(** The [k]-th name the loop tries. *)
Definition candidate (base : string) (k : nat) : string :=
  match k with
  | 0 => base
  | S _ => base ++ pretty k
  end.

(** Whether every character of [s] satisfies [P]. *)
Fixpoint string_all (P : Ascii.ascii -> bool) (s : string) : bool :=
  match s with
  | EmptyString => true
  | String c rest => P c && string_all P rest
  end.

End UserMethods.

(** ** models/post.model.js: the pre-save hooks *)

Module Post.
Import JS.

(** The regular-expression class [\w] (without the unicode flag):
    [A-Za-z0-9_]. *)
Definition is_word (c : Ascii.ascii) : bool :=
  let n := Ascii.nat_of_ascii c in
  (Nat.leb 65 n && Nat.leb n 90) || (Nat.leb 97 n && Nat.leb n 122)
  || (Nat.leb 48 n && Nat.leb n 57) || Nat.eqb n 95.

(** The longest run of word characters [s] starts with, and what
    follows it. *)
Fixpoint word_prefix (s : string) : string :=
  match s with
  | EmptyString => ""
  | String c rest => if is_word c then String c (word_prefix rest) else ""
  end.

Fixpoint drop_word (s : string) : string :=
  match s with
  | EmptyString => ""
  | String c rest => if is_word c then drop_word rest else s
  end.

(** [content.match(/#(\w+)/g)]: the matches from left to right, the
    search resuming after each match; [fuel] bounds the number of start
    positions tried.  The empty list stands for [null]. *)
Fixpoint matchAll (fuel : nat) (s : string) : list string :=
  match fuel with
  | 0 => []
  | S fuel =>
      match s with
      | EmptyString => []
      | String c rest =>
          if decide (c = "#"%char)
          then match word_prefix rest with
               | EmptyString => matchAll fuel rest
               | w => String "#" w :: matchAll fuel (drop_word rest)
               end
          else matchAll fuel rest
      end
  end.

Definition hashtagMatches (content : string) : list string :=
  matchAll (String.length content) content.

(** [tag.slice(1)] *)
Definition slice1 (s : string) : string :=
  match s with
  | EmptyString => ""
  | String _ rest => rest
  end.

(** [toLowerCase] on a string of word characters: the letters A-Z are
    the only ones it changes. *)
Definition lower_char (c : Ascii.ascii) : Ascii.ascii :=
  let n := Ascii.nat_of_ascii c in
  if Nat.leb 65 n && Nat.leb n 90 then Ascii.ascii_of_nat (n + 32) else c.

Fixpoint lower_word (s : string) : string :=
  match s with
  | EmptyString => ""
  | String c rest => String (lower_char c) (lower_word rest)
  end.

(** [[...new Set(l)]]: the first occurrence of each value, in order. *)
Fixpoint uniq_from (seen l : list string) : list string :=
  match l with
  | [] => []
  | x :: l =>
      if decide (x ∈ seen) then uniq_from seen l
      else x :: uniq_from (x :: seen) l
  end.

Definition uniq (l : list string) : list string := uniq_from [] l.

(** The paths of a post the hooks read or write; an id is kept as its
    string, [None] stands for [undefined]. *)
Record Doc : Type := mkDoc {
  author : option string;
  authorId : option string;
  content : option string;
  hashtags : list string;
  likes : option (list JSValue);
  likeCount : Z;
  comments : option (list JSValue);
  commentCount : Z
}.

(** First hook, "Ensure author/authorId sync". *)
Definition syncAuthor (d : Doc) : Doc :=
  let d := match author d, authorId d with
           | Some a, None =>
               mkDoc (author d) (Some a) (content d) (hashtags d)
                     (likes d) (likeCount d) (comments d) (commentCount d)
           | _, _ => d
           end in
  match authorId d, author d with
  | Some a, None =>
      mkDoc (Some a) (authorId d) (content d) (hashtags d)
            (likes d) (likeCount d) (comments d) (commentCount d)
  | _, _ => d
  end.

(** Second hook, "Extract hashtags from content"; [contentModified] is
    [this.isModified('content')]. *)
Definition extractHashtags (contentModified : bool) (d : Doc) : Doc :=
  match content d with
  | Some text =>
      if contentModified && negb (bool_decide (text = ""))
      then match hashtagMatches text with
           | [] => d
           | matches =>
               mkDoc (author d) (authorId d) (content d)
                     (uniq ((fun tag => lower_word (slice1 tag)) <$> matches))
                     (likes d) (likeCount d) (comments d) (commentCount d)
           end
      else d
  | None => d
  end.

(** Third hook, "Update counts". *)
Definition updateCounts (d : Doc) : Doc :=
  let d := match likes d with
           | Some l =>
               mkDoc (author d) (authorId d) (content d) (hashtags d)
                     (likes d) (Z.of_nat (length l)) (comments d) (commentCount d)
           | None => d
           end in
  match comments d with
  | Some l =>
      mkDoc (author d) (authorId d) (content d) (hashtags d)
            (likes d) (likeCount d) (comments d) (Z.of_nat (length l))
  | None => d
  end.

(** The three hooks in the order they are registered. *)
Definition preSave (contentModified : bool) (d : Doc) : Doc :=
  updateCounts (extractHashtags contentModified (syncAuthor d)).

(** The characters a stored hashtag can have: [a-z0-9_]. *)
Definition is_tag_char (c : Ascii.ascii) : bool :=
  let n := Ascii.nat_of_ascii c in
  (Nat.leb 97 n && Nat.leb n 122) || (Nat.leb 48 n && Nat.leb n 57) || Nat.eqb n 95.

(** Whether every character of [s] satisfies [P]. *)
Fixpoint all_chars (P : Ascii.ascii -> bool) (s : string) : bool :=
  match s with
  | EmptyString => true
  | String c rest => P c && all_chars P rest
  end.

(** The matches as the positions of the text give them, one position at
    a time: a match starts at each "#" that a word character follows. *)
Fixpoint scan (s : string) : list string :=
  match s with
  | EmptyString => []
  | String c rest =>
      if decide (c = "#"%char)
      then match word_prefix rest with
           | EmptyString => scan rest
           | w => String "#" w :: scan rest
           end
      else scan rest
  end.

End Post.

(** ** routes/user-profile.routes.js: the auth middleware and the profile
       update *)

Module ProfileRoutes.
Import JS.

(** What a middleware or handler does with a request: it answers with
    a status and a JSON body, or hands over to the next handler with
    [req.user] set. *)
Inductive Outcome : Type :=
| Respond (status : nat) (body : JSValue)
| Next (user : JSValue).

(** [req.headers.authorization?.split(' ')[1]] *)
Definition tokenOf (authorization : option string) : option string :=
  match authorization with
  | Some header => UserMethods.split_on " "%char header !! 1
  | None => None
  end.

(** [process.env.JWT_SECRET || 'cybev-secret-key'] *)
Definition jwtSecret (JWT_SECRET : option string) : string :=
  match JWT_SECRET with
  | Some s => if decide (s = "") then "cybev-secret-key" else s
  | None => "cybev-secret-key"
  end.

(** [verifyToken]; [jwt_verify token secret] is [jwt.verify] of the
    jsonwebtoken package: the decoded payload, or an error. *)
Definition verifyToken (jwt_verify : string -> string -> completion JSValue)
    (JWT_SECRET : option string) (authorization : option string) : Outcome :=
  match tokenOf authorization with
  | None | Some EmptyString =>
      Respond 401 (JObj [("ok", JBool false); ("error", JStr "No token provided")])
  | Some token =>
      match jwt_verify token (jwtSecret JWT_SECRET) with
      | Normal decoded => Next decoded
      | Throw _ =>
          Respond 401 (JObj [("ok", JBool false); ("error", JStr "Invalid token")])
      end
  end.

(** [if (v !== undefined) updateFields.k = v], for a body that
    body-parser produced from JSON: none of name, bio, location and
    website exists on the prototype of such a value. *)
Definition pick (body : JSValue) (k : string) : list (string * JSValue) :=
  match Get body k with
  | JUndefined => []
  | v => [(k, v)]
  end.

(** The [updateFields] object the PUT /profile handler builds from
    [req.body]. *)
Definition updateFields (body : JSValue) : completion (list (string * JSValue)) :=
  _ ← RequireObjectCoercible body;
  Normal (pick body "name" ++ pick body "bio" ++ pick body "location"
          ++ pick body "website")%list.

(** Whether a string has no space. *)
Definition no_space (s : string) : bool :=
  UserMethods.string_all (fun c => negb (bool_decide (c = " "%char))) s.

End ProfileRoutes.

(** ** server.js: the configuration flags and what /api/health reports
       of them *)

Module Config.
Import JS.

(** [process.env]: a variable is a string, or absent. *)
Definition Env : Type := string -> option string.

(** [process.env.K] *)
Definition env_get (env : Env) (k : string) : JSValue :=
  match env k with
  | Some s => JStr s
  | None => JUndefined
  end.

(** [a && b] *)
Definition js_and (a b : JSValue) : JSValue := if truthy a then b else a.

(** [a || b] *)
Definition js_or (a b : JSValue) : JSValue := if truthy a then a else b.

(** [!!process.env.FLUTTERWAVE_SECRET_KEY] and the like *)
Definition FLUTTERWAVE_CONFIGURED (env : Env) : bool :=
  truthy (env_get env "FLUTTERWAVE_SECRET_KEY").
Definition PAYSTACK_CONFIGURED (env : Env) : bool :=
  truthy (env_get env "PAYSTACK_SECRET_KEY").
Definition STRIPE_CONFIGURED (env : Env) : bool :=
  truthy (env_get env "STRIPE_SECRET_KEY").
Definition HUBTEL_CONFIGURED (env : Env) : bool :=
  truthy (js_and (env_get env "HUBTEL_CLIENT_ID")
                 (env_get env "HUBTEL_CLIENT_SECRET")).
Definition DOMAIN_API_CONFIGURED (env : Env) : bool :=
  truthy (js_and (env_get env "DOMAIN_API_USERNAME")
                 (env_get env "DOMAIN_API_PASSWORD")).
Definition BREVO_CONFIGURED (env : Env) : bool :=
  truthy (env_get env "BREVO_API_KEY").
Definition EMAIL_PROVIDER (env : Env) : string :=
  if BREVO_CONFIGURED env then "brevo" else "console".
Definition EMAIL_SENDER (env : Env) : JSValue :=
  js_or (env_get env "BREVO_SENDER_EMAIL") (JStr "noreply@cybev.io").

(** [[F && 'Flutterwave', P && 'Paystack', S && 'Stripe',
      H && 'Hubtel'].filter(Boolean)] *)
Definition configuredPayments (env : Env) : list JSValue :=
  filter (fun v => truthy v)
    [js_and (JBool (FLUTTERWAVE_CONFIGURED env)) (JStr "Flutterwave");
     js_and (JBool (PAYSTACK_CONFIGURED env)) (JStr "Paystack");
     js_and (JBool (STRIPE_CONFIGURED env)) (JStr "Stripe");
     js_and (JBool (HUBTEL_CONFIGURED env)) (JStr "Hubtel")].

(** The [email], [payments], [domainApi] and [mobile] members of the
    body of GET /api/health. *)
Definition health_email (env : Env) : JSValue :=
  JObj [("provider", JStr (EMAIL_PROVIDER env));
        ("configured", JBool (BREVO_CONFIGURED env));
        ("sender", EMAIL_SENDER env)].

Definition health_payments (env : Env) : JSValue :=
  JObj [("flutterwave", JBool (FLUTTERWAVE_CONFIGURED env));
        ("paystack", JBool (PAYSTACK_CONFIGURED env));
        ("stripe", JBool (STRIPE_CONFIGURED env));
        ("hubtel", JBool (HUBTEL_CONFIGURED env));
        ("configured", JArr (configuredPayments env))].

Definition health_domainApi (env : Env) : JSValue :=
  JObj [("configured", JBool (DOMAIN_API_CONFIGURED env));
        ("provider", JStr "DomainNameAPI.com");
        ("features",
         if DOMAIN_API_CONFIGURED env
         then JArr [JStr "registration"; JStr "dns"; JStr "transfer";
                    JStr "renewal"]
         else JArr [])].

Definition health_mobile (env : Env) : JSValue :=
  JObj [("version", JStr "1.1.0");
        ("pushNotifications",
         JBool (truthy (js_or (env_get env "FIREBASE_SERVICE_ACCOUNT")
                              (env_get env "FCM_SERVER_KEY"))));
        ("fcmVersion",
         if truthy (env_get env "FIREBASE_SERVICE_ACCOUNT") then JStr "v1"
         else if truthy (env_get env "FCM_SERVER_KEY") then JStr "legacy"
         else JStr "not configured");
        ("deepLinking", JBool true)].

(** A variable that is set to a non-empty string. *)
Definition is_set (env : Env) (k : string) : Prop :=
  ∃ s, env k = Some s ∧ s ≠ "".

End Config.

(** ** www/native-bridge.js: where a tapped notification leads *)

Module NativeBridge.
Import JS.

(** [v === 'literal'] *)
Definition is_str (v : JSValue) (literal : string) : bool :=
  match v with
  | JStr s => bool_decide (s = literal)
  | _ => false
  end.

(** [v || ''] *)
Definition or_empty (v : JSValue) : JSValue :=
  if truthy v then v else JStr "".

(** [handleNotificationAction(data)]: the value assigned to
    [window.location.href], if any.  The properties read (type,
    conversationId, userId, blogId, postId, streamId, url) exist on no
    built-in prototype of a JSON value. *)
Definition handleNotificationAction (data : JSValue) : completion (option string) :=
  if negb (truthy data) then Normal None
  else
    let type := Get data "type" in
    if is_str type "message" then
      href ← template "/messages/" (or_empty (Get data "conversationId"));
      Normal (Some href)
    else if is_str type "follow" then
      href ← template "/profile/" (or_empty (Get data "userId"));
      Normal (Some href)
    else if is_str type "like" || is_str type "comment" then
      if truthy (Get data "blogId") then
        href ← template "/blog/" (Get data "blogId");
        Normal (Some href)
      else if truthy (Get data "postId") then
        href ← template "/post/" (Get data "postId");
        Normal (Some href)
      else Normal None
    else if is_str type "live" then
      href ← template "/live/" (or_empty (Get data "streamId"));
      Normal (Some href)
    else if truthy (Get data "url") then
      href ← ToString (Get data "url");
      Normal (Some href)
    else Normal None.

(** The notification types the function knows. *)
Definition typed : list string :=
  ["message"; "follow"; "like"; "comment"; "live"].

(** A sample notification: a comment on a post, with a url as well. *)
Definition comment_on_post : JSValue :=
  JObj [("type", JStr "comment"); ("postId", JStr "p7");
        ("url", JStr "https://example.org/x")].

End NativeBridge.

(** * Properties *)

Import JS SocketIO Handlers User Spec Scenario.

#[local] Set Warnings "-clear-no-such-hyp".

(** ** Fan-out: what a broadcast writes, and what it leaves alone *)

Section Outbox.
Implicit Types (σ : Server) (p : Packet) (c id room : string) (except : gset string).

Lemma received_write σ p id c :
  received (write p id σ) c
  = if decide (id = c) then (received σ c ++ [p])%list else received σ c.
Proof.
  unfold received at 1, write; simpl. rewrite lookup_insert.
  destruct (decide (id = c)) as [->|]; done.
Qed.

Lemma foldr_write_frame σ p (l : list string) :
  let σ' := foldr (write p) σ l in
  sockets σ' = sockets σ ∧ rooms σ' = rooms σ ∧ sids σ' = sids σ
  ∧ console σ' = console σ.
Proof. induction l as [|x l IH]; simpl in *; [done|]. apply IH. Qed.

Lemma received_foldr_write σ p (l : list string) c :
  NoDup l →
  received (foldr (write p) σ l) c
  = if decide (c ∈ l) then (received σ c ++ [p])%list else received σ c.
Proof.
  induction 1 as [|x l Hx Hnd IH]; simpl.
  - done.
  - rewrite received_write, IH.
    repeat case_decide; subst; try done; set_solver.
Qed.

Lemma broadcast_frame room except p σ :
  let σ' := broadcast room except p σ in
  sockets σ' = sockets σ ∧ rooms σ' = rooms σ ∧ sids σ' = sids σ
  ∧ console σ' = console σ.
Proof. apply foldr_write_frame. Qed.

Lemma received_broadcast room except p σ c :
  received (broadcast room except p σ) c
  = if decide (c ∈ recipients σ room except)
    then (received σ c ++ [p])%list else received σ c.
Proof.
  unfold broadcast. rewrite received_foldr_write by apply NoDup_elements.
  destruct (decide (c ∈ recipients σ room except)).
  - rewrite decide_True; [done | by apply elem_of_elements].
  - rewrite decide_False; [done | by rewrite elem_of_elements].
Qed.

Lemma elem_of_recipients σ room except c :
  c ∈ recipients σ room except
  ↔ c ∈ members σ room ∧ (c ∉ except) ∧ c ∈ sockets σ.
Proof. unfold recipients. rewrite elem_of_filter. set_solver. Qed.
End Outbox.

(** ** Room membership under the adapter operations *)

Section Membership.
Implicit Types (σ : Server) (id room : string) (rs : gmap string (gset string)).

Lemma room_members_insert rs room (ms : gset string) room' :
  room_members (<[room := ms]> rs) room'
  = if decide (room = room') then ms else room_members rs room'.
Proof.
  unfold room_members. rewrite lookup_insert.
  destruct (decide (room = room')); done.
Qed.

Lemma room_members__del room id rs room' :
  room_members (_del room id rs) room'
  = if decide (room = room') then room_members rs room' ∖ {[id]}
    else room_members rs room'.
Proof.
  unfold _del, room_members.
  destruct (decide (room = room')) as [<-|Hne].
  - destruct (rs !! room) as [ms|] eqn:Hms; simpl.
    + destruct (decide (ms ∖ {[id]} = ∅)) as [He|He].
      * by rewrite lookup_delete_eq, He.
      * by rewrite lookup_insert_eq.
    + rewrite Hms. simpl. set_solver.
  - destruct (rs !! room) as [ms|] eqn:Hms; [|done].
    destruct (decide (ms ∖ {[id]} = ∅)).
    + by rewrite lookup_delete_ne.
    + by rewrite lookup_insert_ne.
Qed.

Lemma _del_idemp room id rs : _del room id (_del room id rs) = _del room id rs.
Proof.
  unfold _del at 2 3.
  destruct (rs !! room) as [ms|] eqn:Hms.
  - destruct (decide (ms ∖ {[id]} = ∅)) as [He|He].
    + unfold _del. by rewrite lookup_delete_eq.
    + unfold _del. rewrite lookup_insert_eq.
      replace (ms ∖ {[id]} ∖ {[id]}) with (ms ∖ {[id]}) by set_solver.
      rewrite decide_False by done. by rewrite insert_insert_eq.
  - unfold _del. by rewrite Hms.
Qed.

Lemma room_members_foldr_del id rs (l : list string) room' :
  room_members (foldr (fun room acc => _del room id acc) rs l) room'
  = if decide (room' ∈ l) then room_members rs room' ∖ {[id]}
    else room_members rs room'.
Proof.
  induction l as [|room l IH]; simpl; [done|].
  rewrite room_members__del, IH.
  repeat case_decide; subst; try done; set_solver.
Qed.

Lemma members_addAll id room σ room' :
  members (addAll id room σ) room'
  = if decide (room = room') then {[id]} ∪ members σ room else members σ room'.
Proof. apply room_members_insert. Qed.

Lemma membershipsOf_addAll id room σ id' :
  membershipsOf (addAll id room σ) id'
  = if decide (id = id') then {[room]} ∪ membershipsOf σ id
    else membershipsOf σ id'.
Proof.
  unfold membershipsOf at 1, addAll; simpl. rewrite lookup_insert.
  destruct (decide (id = id')); done.
Qed.

Lemma members_del id room σ room' :
  members (del id room σ) room'
  = if decide (room = room') then members σ room' ∖ {[id]} else members σ room'.
Proof. apply room_members__del. Qed.

Lemma membershipsOf_del id room σ id' :
  membershipsOf (del id room σ) id'
  = if decide (id = id') then membershipsOf σ id' ∖ {[room]}
    else membershipsOf σ id'.
Proof.
  unfold membershipsOf, del; simpl.
  destruct (decide (id = id')) as [<-|Hne].
  - destruct (sids σ !! id) as [mine|] eqn:Hmine; simpl.
    + by rewrite lookup_insert_eq.
    + rewrite Hmine. simpl. set_solver.
  - destruct (sids σ !! id); [by rewrite lookup_insert_ne | done].
Qed.

Lemma members_delAll id σ room' :
  members (delAll id σ) room'
  = if decide (room' ∈ membershipsOf σ id) then members σ room' ∖ {[id]}
    else members σ room'.
Proof.
  unfold delAll, membershipsOf, members.
  destruct (sids σ !! id) as [mine|]; simpl.
  - rewrite room_members_foldr_del.
    repeat case_decide; try done; set_solver.
  - rewrite decide_False; [done | set_solver].
Qed.

Lemma membershipsOf_delAll id σ id' :
  membershipsOf (delAll id σ) id'
  = if decide (id = id') then ∅ else membershipsOf σ id'.
Proof.
  unfold delAll, membershipsOf.
  destruct (decide (id = id')) as [<-|Hne].
  - destruct (sids σ !! id) as [mine|] eqn:Hmine; simpl.
    + by rewrite lookup_delete_eq.
    + by rewrite Hmine.
  - destruct (sids σ !! id); simpl; [by rewrite lookup_delete_ne | done].
Qed.

Lemma sockets_delAll id σ : sockets (delAll id σ) = sockets σ.
Proof. unfold delAll. by destruct (sids σ !! id). Qed.

Lemma outbox_delAll id σ : outbox (delAll id σ) = outbox σ.
Proof. unfold delAll. by destruct (sids σ !! id). Qed.

Lemma console_delAll id σ : console (delAll id σ) = console σ.
Proof. unfold delAll. by destruct (sids σ !! id). Qed.
End Membership.

(** ** The invariant is established and kept *)

Section Invariant.
Implicit Types (σ : Server) (id room : string).

Lemma wf_check_sound σ : wf_check σ = true → wf σ.
Proof.
  unfold wf_check. rewrite andb_true_iff, !bool_decide_eq_true.
  intros [Hrooms Hsids].
  assert (Hin : ∀ room id, id ∈ members σ room →
                  id ∈ sockets σ ∧ room ∈ membershipsOf σ id).
  { intros room id. unfold members, room_members.
    destruct (rooms σ !! room) as [ms|] eqn:Hms; simpl; [|set_solver].
    intros Hid. exact (Hrooms room ms Hms id Hid). }
  split.
  - intros room id H. by apply Hin in H as [? _].
  - intros room id. split.
    + intros H. by apply Hin in H as [_ ?].
    + unfold membershipsOf.
      destruct (sids σ !! id) as [mine|] eqn:Hmine; simpl; [|set_solver].
      intros Hroom. exact (Hsids id mine Hmine room Hroom).
Qed.


Lemma wf_check_complete σ : wf σ → wf_check σ = true.
Proof.
  intros [Hc Hm]. unfold wf_check. rewrite andb_true_iff, !bool_decide_eq_true.
  split.
  - intros room ms Hms id Hid.
    assert (id ∈ members σ room) as H.
    { unfold members, room_members. by rewrite Hms. }
    split; [by eapply Hc | by apply Hm].
  - intros id mine Hmine room Hroom. apply Hm.
    unfold membershipsOf. by rewrite Hmine.
Qed.

Lemma wf_init : wf init.
Proof. split; intros room id; unfold members, membershipsOf, room_members; simpl; set_solver. Qed.

Lemma wf_frame σ σ' :
  sockets σ' = sockets σ → rooms σ' = rooms σ → sids σ' = sids σ →
  wf σ → wf σ'.
Proof.
  intros Hs Hr Hi [Hc Hm].
  split; intros room id; unfold members, membershipsOf in *;
    rewrite ?Hs, ?Hr, ?Hi; [apply Hc | apply Hm].
Qed.

Lemma wf_addAll id room σ : id ∈ sockets σ → wf σ → wf (addAll id room σ).
Proof.
  intros Hid [Hc Hm]. split; intros room' id'.
  - rewrite members_addAll. case_decide; subst; [|apply Hc].
    rewrite elem_of_union, elem_of_singleton. intros [->|H]; [done|].
    by apply (Hc room').
  - rewrite members_addAll, membershipsOf_addAll.
    pose proof (Hm room' id'). pose proof (Hm room id').
    repeat case_decide; subst; set_solver.
Qed.

Lemma wf_del id room σ : wf σ → wf (del id room σ).
Proof.
  intros [Hc Hm]. split; intros room' id'.
  - rewrite members_del. specialize (Hc room' id').
    case_decide; set_solver.
  - rewrite members_del, membershipsOf_del. specialize (Hm room' id').
    repeat case_decide; subst; set_solver.
Qed.

Lemma wf_connect id σ : wf σ → wf (connect id σ).
Proof.
  intros [Hc Hm]. apply wf_addAll; [simpl; set_solver|].
  split; intros room' id'; [|apply Hm].
  intros H%Hc. simpl. set_solver.
Qed.

Lemma wf_close id σ : wf σ → wf (close id σ).
Proof.
  intros [Hc Hm]. unfold close.
  assert (Hmem : ∀ room', members (close id σ) room' = members σ room' ∖ {[id]}).
  { intros room'. change (members (close id σ) room') with (members (delAll id σ) room').
    rewrite members_delAll. case_decide as Hin; [done|].
    rewrite <- Hm in Hin. set_solver. }
  assert (Hof : ∀ id', membershipsOf (close id σ) id'
                       = if decide (id = id') then ∅ else membershipsOf σ id').
  { intros id'. apply membershipsOf_delAll. }
  split; intros room' id'.
  - rewrite Hmem. simpl. rewrite sockets_delAll. specialize (Hc room' id'). set_solver.
  - rewrite Hmem, Hof. specialize (Hm room' id').
    case_decide; subst; set_solver.
Qed.
End Invariant.

(** ** The handlers, as equations *)

Section HandlerEquations.
Implicit Types (σ : Server) (socket : string) (v payload : JSValue) (s : string).

Lemma bind_Normal {A B} (c : completion A) (k : A → completion B) b :
  (c ≫= k) = Normal b ↔ ∃ a, c = Normal a ∧ k a = Normal b.
Proof.
  destruct c as [a|e]; simpl; split.
  - eauto.
  - by intros (a' & [= ->] & ?).
  - done.
  - by intros (a' & ? & _).
Qed.

Lemma template_Normal prefix v s :
  ToString v = Normal s → template prefix v = Normal (prefix ++ s).
Proof. unfold template. by intros ->. Qed.

Lemma template_inv prefix v room :
  template prefix v = Normal room → ∃ s, ToString v = Normal s ∧ room = prefix ++ s.
Proof.
  unfold template. intros (s & Hs & [= <-])%bind_Normal. eauto.
Qed.

Lemma on_join_eq socket v σ s :
  ToString v = Normal s →
  on_join socket v σ
  = Normal (console_log ("User " ++ s ++ " joined their room")
              (socket_join socket ("user:" ++ s) σ)).
Proof. intros Hs. unfold on_join. rewrite (template_Normal _ _ _ Hs). simpl. by rewrite Hs. Qed.

Lemma on_join_conversation_eq socket v σ s :
  ToString v = Normal s →
  on_join_conversation socket v σ
  = Normal (socket_join socket ("conversation:" ++ s) σ).
Proof. intros Hs. unfold on_join_conversation. by rewrite (template_Normal _ _ _ Hs). Qed.

Lemma on_leave_conversation_eq socket v σ s :
  ToString v = Normal s →
  on_leave_conversation socket v σ
  = Normal (socket_leave socket ("conversation:" ++ s) σ).
Proof. intros Hs. unfold on_leave_conversation. by rewrite (template_Normal _ _ _ Hs). Qed.

Lemma on_typing_eq socket payload σ s :
  RequireObjectCoercible payload = Normal () →
  ToString (Get payload "conversationId") = Normal s →
  on_typing socket payload σ
  = Normal (socket_to_emit socket ("conversation:" ++ s) "user-typing"
              (JObj [("userId", Get payload "userId");
                     ("isTyping", Get payload "isTyping")]) σ).
Proof.
  intros Hp Hs. unfold on_typing. rewrite Hp. simpl.
  by rewrite (template_Normal _ _ _ Hs).
Qed.

Lemma on_join_stream_eq socket v σ s :
  ToString v = Normal s →
  on_join_stream socket v σ
  = Normal (socket_to_emit socket ("stream:" ++ s) "viewer-joined"
              (JObj [("socketId", JStr socket)])
              (socket_join socket ("stream:" ++ s) σ)).
Proof.
  intros Hs. unfold on_join_stream, template. by rewrite Hs.
Qed.

Lemma on_leave_stream_eq socket v σ s :
  ToString v = Normal s →
  on_leave_stream socket v σ
  = Normal (socket_to_emit socket ("stream:" ++ s) "viewer-left"
              (JObj [("socketId", JStr socket)])
              (socket_leave socket ("stream:" ++ s) σ)).
Proof.
  intros Hs. unfold on_leave_stream, template. by rewrite Hs.
Qed.

Lemma on_stream_chat_eq socket payload σ s :
  RequireObjectCoercible payload = Normal () →
  ToString (Get payload "streamId") = Normal s →
  on_stream_chat socket payload σ
  = Normal (io_to_emit ("stream:" ++ s) "chat-message" (Get payload "message") σ).
Proof.
  intros Hp Hs. unfold on_stream_chat. rewrite Hp. simpl.
  by rewrite (template_Normal _ _ _ Hs).
Qed.

Lemma on_stream_reaction_eq socket payload σ s :
  RequireObjectCoercible payload = Normal () →
  ToString (Get payload "streamId") = Normal s →
  on_stream_reaction socket payload σ
  = Normal (io_to_emit ("stream:" ++ s) "reaction"
              (JObj [("emoji", Get payload "emoji");
                     ("userId", Get payload "userId")]) σ).
Proof.
  intros Hp Hs. unfold on_stream_reaction. rewrite Hp. simpl.
  by rewrite (template_Normal _ _ _ Hs).
Qed.

Lemma socket_join_connected socket room σ :
  socket ∈ sockets σ → socket_join socket room σ = addAll socket room σ.
Proof. intros H. unfold socket_join. by rewrite decide_True. Qed.

Lemma socket_join_gone socket room σ :
  socket ∉ sockets σ → socket_join socket room σ = σ.
Proof. intros H. unfold socket_join. by rewrite decide_False. Qed.

Lemma dispatch_connected socket ev σ :
  socket ∈ sockets σ → dispatch socket ev σ = handle socket ev σ.
Proof. intros H. unfold dispatch. by rewrite decide_True. Qed.

Lemma dispatch_gone socket ev σ :
  socket ∉ sockets σ → dispatch socket ev σ = Normal σ.
Proof. intros H. unfold dispatch. by rewrite decide_False. Qed.
End HandlerEquations.

(** Case analysis on a handler that returned: the goal
    [handle socket ev σ = Normal σ' → G σ'] is replaced by one goal per
    event kind, with [σ'] the state that handler builds. *)
Ltac handler_cases :=
  lazymatch goal with
  | |- handle _ ?ev _ = Normal _ → _ =>
      let H := fresh "Hrun" in
      destruct ev; simpl;
      unfold on_join, on_join_conversation, on_leave_conversation, on_typing,
        on_join_stream, on_leave_stream, on_stream_chat, on_stream_reaction;
      intros H;
      repeat (apply bind_Normal in H; destruct H as (? & _ & H));
      injection H as <-;
      unfold socket_to_emit, io_to_emit, socket_join, socket_leave;
      try case_decide
  end.

(** ** Every state the event loop reaches satisfies the invariant *)

Section Reachable.
Implicit Types (σ : Server) (socket : string).

Lemma wf_console_log line σ : wf σ → wf (console_log line σ).
Proof. by apply wf_frame. Qed.

Lemma wf_broadcast room except p σ : wf σ → wf (broadcast room except p σ).
Proof.
  destruct (broadcast_frame room except p σ) as (? & ? & ? & _).
  by apply wf_frame.
Qed.

Lemma wf_handle socket ev σ σ' :
  wf σ → socket ∈ sockets σ → handle socket ev σ = Normal σ' → wf σ'.
Proof.
  intros Hwf Hin. handler_cases;
    auto using wf_console_log, wf_addAll, wf_del, wf_broadcast.
Qed.

Lemma wf_step σ i σ' : wf σ → step σ i = Normal σ' → wf σ'.
Proof.
  intros Hwf. destruct i as [socket|socket ev|socket]; simpl.
  - intros [= <-]. by apply wf_console_log, wf_connect.
  - unfold dispatch. case_decide.
    + by apply wf_handle.
    + by intros [= <-].
  - intros [= <-]. unfold on_disconnect. case_decide; [|done].
    by apply wf_console_log, wf_close.
Qed.

Lemma wf_run inputs : ∀ σ σ', wf σ → run σ inputs = Normal σ' → wf σ'.
Proof.
  induction inputs as [|i rest IH]; simpl; intros σ σ' Hwf.
  - by intros [= <-].
  - intros (σ1 & H1 & Hrest)%bind_Normal. eauto using wf_step.
Qed.

Lemma reachable_wf σ : reachable σ → wf σ.
Proof. intros [inputs Hrun]. eapply wf_run; [apply wf_init | exact Hrun]. Qed.
End Reachable.

(** ** Delivery *)

Lemma wf_state_after inputs : wf (state_after inputs).
Proof.
  unfold state_after. destruct (run init inputs) as [σ|e] eqn:Hrun.
  - eapply wf_run; [apply wf_init | exact Hrun].
  - apply wf_init.
Qed.

Section Delivery.
Implicit Types (σ : Server) (c : string).

Lemma delivered room except p σ c :
  c ∈ members σ room → c ∉ except → c ∈ sockets σ →
  received (broadcast room except p σ) c = (received σ c ++ [p])%list.
Proof.
  intros. rewrite received_broadcast, decide_True; [done|].
  by apply elem_of_recipients.
Qed.

Lemma skipped room except p σ c :
  c ∉ members σ room ∨ c ∈ except ∨ c ∉ sockets σ →
  received (broadcast room except p σ) c = received σ c.
Proof.
  intros H. rewrite received_broadcast, decide_False; [done|].
  rewrite elem_of_recipients. tauto.
Qed.

Lemma members_broadcast room except p σ room' :
  members (broadcast room except p σ) room' = members σ room'.
Proof.
  destruct (broadcast_frame room except p σ) as (_ & Hr & _).
  unfold members. by rewrite Hr.
Qed.

Lemma sockets_broadcast room except p σ :
  sockets (broadcast room except p σ) = sockets σ.
Proof. by destruct (broadcast_frame room except p σ) as (? & _). Qed.

Lemma broadcast_empty_room room except p σ :
  members σ room = ∅ → broadcast room except p σ = σ.
Proof.
  intros Hm. unfold broadcast, recipients. rewrite Hm.
  replace (filter (λ id, id ∈ sockets σ) (∅ ∖ except)) with (∅ : gset string)
    by set_solver.
  by rewrite elements_empty.
Qed.

(** A socket that is not connected is sent nothing, whatever the event. *)
Lemma handle_received_gone socket ev σ σ' c :
  c ∉ sockets σ → handle socket ev σ = Normal σ' → received σ' c = received σ c.
Proof.
  intros Hc. handler_cases; try done; by rewrite skipped by auto.
Qed.
End Delivery.

(** ** Claims about the dispatcher *)

(** C1.  A stream-chat event [{streamId, message}] from a connected sender
    is answered by a chat-message packet carrying the message as it came,
    written to every member of room "stream:"+streamId, the sender
    included when it is a member; a sender alone in the room gets its own
    echo. *)
Theorem stream_chat_echo σ X payload s :
  wf σ → X ∈ sockets σ →
  RequireObjectCoercible payload = Normal () →
  ToString (Get payload "streamId") = Normal s →
  ∃ σ', dispatch X (stream_chat payload) σ = Normal σ'
    ∧ (∀ c, c ∈ members σ ("stream:" ++ s) →
         received σ' c
         = (received σ c ++ [mkPacket "chat-message" (Get payload "message")])%list)
    ∧ (members σ ("stream:" ++ s) = {[X]} →
         received σ' X
         = (received σ X ++ [mkPacket "chat-message" (Get payload "message")])%list).
Proof.
  intros Hwf HX Hp Hs. eexists. split; [|split].
  - rewrite dispatch_connected by done. simpl. by apply on_stream_chat_eq.
  - intros c Hc. apply delivered; [done | set_solver | by eapply wf_connected].
  - intros Hm. apply delivered; [set_solver | set_solver | done].
Qed.

Lemma stream_chat_echo_witness :
  ∃ σ', dispatch "X" (stream_chat chat_hi) alone = Normal σ'
    ∧ (∀ c, c ∈ members alone ("stream:" ++ "s1") →
         received σ' c
         = (received alone c ++ [mkPacket "chat-message" (Get chat_hi "message")])%list)
    ∧ (members alone ("stream:" ++ "s1") = {[ "X" ]} →
         received σ' "X"
         = (received alone "X" ++ [mkPacket "chat-message" (Get chat_hi "message")])%list).
Proof.
  apply (stream_chat_echo alone "X" chat_hi "s1").
  - apply wf_check_sound. vm_compute. reflexivity.
  - vm_compute. reflexivity.
  - reflexivity.
  - reflexivity.
Defined.

Example alone_members : members alone "stream:s1" = {[ "X" ]}.
Proof. vm_compute. reflexivity. Qed.

(** C2.  A typing event [{conversationId, userId, isTyping}] makes the
    server write a user-typing packet with payload [{userId, isTyping}] to
    every member of room "conversation:"+conversationId other than the
    sender, and nothing to the sender. *)
Theorem typing_excludes_sender σ X payload s :
  wf σ → X ∈ sockets σ →
  RequireObjectCoercible payload = Normal () →
  ToString (Get payload "conversationId") = Normal s →
  ∃ σ', dispatch X (typing payload) σ = Normal σ'
    ∧ (∀ c, c ∈ members σ ("conversation:" ++ s) → c ≠ X →
         received σ' c
         = (received σ c
            ++ [mkPacket "user-typing"
                  (JObj [("userId", Get payload "userId");
                         ("isTyping", Get payload "isTyping")])])%list)
    ∧ received σ' X = received σ X.
Proof.
  intros Hwf HX Hp Hs. eexists. split; [|split].
  - rewrite dispatch_connected by done. simpl. by apply on_typing_eq.
  - intros c Hc Hne. apply delivered; [done | set_solver | by eapply wf_connected].
  - apply skipped. right; left. set_solver.
Qed.

Lemma typing_excludes_sender_witness :
  ∃ σ', dispatch "A" (typing typing_on) conversation = Normal σ'
    ∧ (∀ c, c ∈ members conversation ("conversation:" ++ "c1") → c ≠ "A" →
         received σ' c
         = (received conversation c
            ++ [mkPacket "user-typing"
                  (JObj [("userId", Get typing_on "userId");
                         ("isTyping", Get typing_on "isTyping")])])%list)
    ∧ received σ' "A" = received conversation "A".
Proof.
  apply (typing_excludes_sender conversation "A" typing_on "c1").
  - apply wf_check_sound. vm_compute. reflexivity.
  - vm_compute. reflexivity.
  - reflexivity.
  - reflexivity.
Defined.

(** C3.  On join-stream(streamId) from connection X, X becomes a member
    of room "stream:"+streamId, every member already present other than X
    is sent viewer-joined with [{socketId: X}], and X itself is sent
    nothing. *)
Theorem join_stream_notifies_others σ X v s :
  wf σ → X ∈ sockets σ → ToString v = Normal s →
  ∃ σ', dispatch X (join_stream v) σ = Normal σ'
    ∧ X ∈ members σ' ("stream:" ++ s)
    ∧ ("stream:" ++ s) ∈ membershipsOf σ' X
    ∧ (∀ Y, Y ∈ members σ ("stream:" ++ s) → Y ≠ X →
         received σ' Y
         = (received σ Y
            ++ [mkPacket "viewer-joined" (JObj [("socketId", JStr X)])])%list)
    ∧ received σ' X = received σ X.
Proof.
  intros Hwf HX Hs. eexists. split; [|split; [|split; [|split]]].
  - rewrite dispatch_connected by done. simpl. by apply on_join_stream_eq.
  - unfold socket_to_emit. rewrite members_broadcast.
    rewrite socket_join_connected by done. rewrite members_addAll, decide_True by done. set_solver.
  - unfold socket_to_emit. rewrite socket_join_connected by done.
    destruct (broadcast_frame ("stream:" ++ s) {[X]}
                (mkPacket "viewer-joined" (JObj [("socketId", JStr X)]))
                (addAll X ("stream:" ++ s) σ)) as (_ & _ & Hi & _).
    unfold membershipsOf at 1. rewrite Hi.
    change (("stream:" ++ s) ∈ membershipsOf (addAll X ("stream:" ++ s) σ) X).
    rewrite membershipsOf_addAll, decide_True by done. set_solver.
  - intros Y HY Hne. unfold socket_to_emit. rewrite socket_join_connected by done.
    rewrite delivered; [done | | set_solver | simpl; by eapply wf_connected].
    rewrite members_addAll, decide_True by done. set_solver.
  - unfold socket_to_emit. rewrite socket_join_connected by done.
    rewrite skipped; [done|]. right; left. set_solver.
Qed.

Lemma join_stream_notifies_others_witness :
  ∃ σ', dispatch "X" (join_stream (JStr "s1")) viewers = Normal σ'
    ∧ "X" ∈ members σ' ("stream:" ++ "s1")
    ∧ ("stream:" ++ "s1") ∈ membershipsOf σ' "X"
    ∧ (∀ Y, Y ∈ members viewers ("stream:" ++ "s1") → Y ≠ "X" →
         received σ' Y
         = (received viewers Y
            ++ [mkPacket "viewer-joined" (JObj [("socketId", JStr "X")])])%list)
    ∧ received σ' "X" = received viewers "X".
Proof.
  apply (join_stream_notifies_others viewers "X" (JStr "s1") "s1").
  - apply wf_check_sound. vm_compute. reflexivity.
  - vm_compute. reflexivity.
  - reflexivity.
Defined.

Example join_stream_scenario :
  (σ' ← dispatch "X" (join_stream (JStr "s1")) viewers;
   Normal (received σ' "Y", received σ' "X"))
  = Normal ([mkPacket "viewer-joined" (JObj [("socketId", JStr "X")])], []).
Proof. vm_compute. reflexivity. Qed.

(** Closing a socket removes it from each room listed for it. *)
Lemma close_leaves_joined_rooms σ X room :
  room ∈ membershipsOf σ X → X ∉ members (close X σ) room.
Proof.
  intros Hroom. change (X ∉ members (delAll X σ) room).
  rewrite members_delAll, decide_True by done. set_solver.
Qed.

(** C4.  Processing the disconnect of connection X removes X from every
    room it had joined, so X is left in no room at all; no later broadcast
    and no later event of any client writes anything to X; processing the
    disconnect a second time changes nothing and raises nothing. *)
Theorem disconnect_leaves_every_room σ X :
  wf σ → X ∈ sockets σ →
  (∀ room, X ∉ members (on_disconnect X σ) room)
  ∧ membershipsOf (on_disconnect X σ) X = ∅
  ∧ (∀ room except p,
       received (broadcast room except p (on_disconnect X σ)) X
       = received (on_disconnect X σ) X)
  ∧ (∀ Y ev σ'', dispatch Y ev (on_disconnect X σ) = Normal σ'' →
       received σ'' X = received (on_disconnect X σ) X)
  ∧ on_disconnect X (on_disconnect X σ) = on_disconnect X σ
  ∧ run σ [Disconnect X; Disconnect X] = run σ [Disconnect X].
Proof.
  intros Hwf HX.
  assert (Hσ' : on_disconnect X σ
                = console_log ("🔌 User disconnected: " ++ X) (close X σ)).
  { unfold on_disconnect. by rewrite decide_True. }
  assert (Hgone : X ∉ sockets (on_disconnect X σ)).
  { rewrite Hσ'. simpl. set_solver. }
  assert (Hidem : on_disconnect X (on_disconnect X σ) = on_disconnect X σ).
  { unfold on_disconnect at 1. by rewrite decide_False. }
  split; [|split; [|split; [|split; [|split]]]].
  - intros room. rewrite Hσ'. change (X ∉ members (delAll X σ) room).
    rewrite members_delAll. case_decide as Hin; [set_solver|].
    by rewrite (wf_sids _ Hwf).
  - rewrite Hσ'. change (membershipsOf (delAll X σ) X = ∅).
    by rewrite membershipsOf_delAll, decide_True.
  - intros room except p. apply skipped. auto.
  - intros Y ev σ''. unfold dispatch. case_decide.
    + by apply handle_received_gone.
    + by intros [= <-].
  - done.
  - simpl. by rewrite Hidem.
Qed.

Lemma disconnect_leaves_every_room_witness :
  (∀ room, "X" ∉ members (on_disconnect "X" joined) room)
  ∧ membershipsOf (on_disconnect "X" joined) "X" = ∅
  ∧ (∀ room except p,
       received (broadcast room except p (on_disconnect "X" joined)) "X"
       = received (on_disconnect "X" joined) "X")
  ∧ (∀ Y ev σ'', dispatch Y ev (on_disconnect "X" joined) = Normal σ'' →
       received σ'' "X" = received (on_disconnect "X" joined) "X")
  ∧ on_disconnect "X" (on_disconnect "X" joined) = on_disconnect "X" joined
  ∧ run joined [Disconnect "X"; Disconnect "X"] = run joined [Disconnect "X"].
Proof.
  apply (disconnect_leaves_every_room joined "X").
  - apply wf_check_sound. vm_compute. reflexivity.
  - vm_compute. reflexivity.
Defined.

Example joined_rooms :
  elements (membershipsOf joined "X") = ["conversation:c1"; "user:u1"; "X"]
  ∧ elements (members (on_disconnect "X" joined) "conversation:c1") = ["Y"]
  ∧ elements (members (on_disconnect "X" joined) "user:u1") = [].
Proof. vm_compute. repeat split; reflexivity. Qed.

(** C5.  A connected sender that is not a member of a stream room or of
    a conversation room still has its stream-chat, stream-reaction and
    typing events broadcast into that room: no handler checks that the
    sender belongs to the room it names. *)
Theorem no_sender_membership_check σ S chat reaction typ stream conv :
  wf σ → S ∈ sockets σ →
  S ∉ members σ ("stream:" ++ stream) →
  S ∉ members σ ("conversation:" ++ conv) →
  RequireObjectCoercible chat = Normal () →
  ToString (Get chat "streamId") = Normal stream →
  RequireObjectCoercible reaction = Normal () →
  ToString (Get reaction "streamId") = Normal stream →
  RequireObjectCoercible typ = Normal () →
  ToString (Get typ "conversationId") = Normal conv →
  (∃ σ', dispatch S (stream_chat chat) σ = Normal σ'
     ∧ ∀ c, c ∈ members σ ("stream:" ++ stream) →
         received σ' c
         = (received σ c ++ [mkPacket "chat-message" (Get chat "message")])%list)
  ∧ (∃ σ', dispatch S (stream_reaction reaction) σ = Normal σ'
     ∧ ∀ c, c ∈ members σ ("stream:" ++ stream) →
         received σ' c
         = (received σ c
            ++ [mkPacket "reaction"
                  (JObj [("emoji", Get reaction "emoji");
                         ("userId", Get reaction "userId")])])%list)
  ∧ (∃ σ', dispatch S (typing typ) σ = Normal σ'
     ∧ ∀ c, c ∈ members σ ("conversation:" ++ conv) →
         received σ' c
         = (received σ c
            ++ [mkPacket "user-typing"
                  (JObj [("userId", Get typ "userId");
                         ("isTyping", Get typ "isTyping")])])%list).
Proof.
  intros Hwf HS Hns Hnc Hc1 Hc2 Hr1 Hr2 Ht1 Ht2.
  split; [|split]; eexists; (split; [rewrite dispatch_connected by done; simpl|]).
  - by apply on_stream_chat_eq.
  - intros c Hc. apply delivered; [done | set_solver | by eapply wf_connected].
  - by apply on_stream_reaction_eq.
  - intros c Hc. apply delivered; [done | set_solver | by eapply wf_connected].
  - by apply on_typing_eq.
  - intros c Hc. apply delivered; [done | | by eapply wf_connected].
    set_solver.
Qed.

Lemma no_sender_membership_check_witness :
  (∃ σ', dispatch "X" (stream_chat chat_hi) viewers = Normal σ'
     ∧ ∀ c, c ∈ members viewers ("stream:" ++ "s1") →
         received σ' c
         = (received viewers c ++ [mkPacket "chat-message" (Get chat_hi "message")])%list)
  ∧ (∃ σ', dispatch "X" (stream_reaction reaction_heart) viewers = Normal σ'
     ∧ ∀ c, c ∈ members viewers ("stream:" ++ "s1") →
         received σ' c
         = (received viewers c
            ++ [mkPacket "reaction"
                  (JObj [("emoji", Get reaction_heart "emoji");
                         ("userId", Get reaction_heart "userId")])])%list)
  ∧ (∃ σ', dispatch "X" (typing typing_on) viewers = Normal σ'
     ∧ ∀ c, c ∈ members viewers ("conversation:" ++ "c1") →
         received σ' c
         = (received viewers c
            ++ [mkPacket "user-typing"
                  (JObj [("userId", Get typing_on "userId");
                         ("isTyping", Get typing_on "isTyping")])])%list).
Proof.
  apply (no_sender_membership_check viewers "X" chat_hi reaction_heart typing_on "s1" "c1").
  - apply wf_check_sound. vm_compute. reflexivity.
  - vm_compute. reflexivity.
  - vm_compute. discriminate.
  - vm_compute. discriminate.
  - reflexivity.
  - reflexivity.
  - reflexivity.
  - reflexivity.
  - reflexivity.
  - reflexivity.
Defined.

Example outsider_reaches_member :
  (σ' ← dispatch "X" (stream_chat chat_hi) viewers; Normal (received σ' "Y"))
  = Normal [mkPacket "chat-message" (JStr "hi")].
Proof. vm_compute. reflexivity. Qed.


(** ** Failure handling *)

Lemma broadcast_is_broadcast_only room except p σ :
  broadcast_only σ (broadcast room except p σ) room except p.
Proof.
  destruct (broadcast_frame room except p σ) as (? & ? & ? & ?).
  repeat split; try done. intros c. apply received_broadcast.
Qed.

(** Against C6 as stated: once X has disconnected it is not in the
    registry, yet the join-conversation and leave-conversation handlers
    run for X return normally, print nothing and leave the server as it
    was, and so does the dispatch of those events: the operation succeeds
    in silence. *)
Lemma unregistered_join_is_silent :
  ("X" ∉ sockets departed)
  ∧ on_join_conversation "X" (JStr "c1") departed = Normal departed
  ∧ on_leave_conversation "X" (JStr "c1") departed = Normal departed
  ∧ ¬ fails_loudly departed (on_join_conversation "X" (JStr "c1") departed)
  ∧ ¬ fails_loudly departed (on_leave_conversation "X" (JStr "c1") departed)
  ∧ ¬ fails_loudly departed (dispatch "X" (join_conversation (JStr "c1")) departed)
  ∧ ¬ fails_loudly departed (dispatch "X" (leave_conversation (JStr "c1")) departed).
Proof.
  split; [vm_compute; discriminate|].
  split; [vm_compute; reflexivity|].
  split; [vm_compute; reflexivity|].
  repeat split; intros H; exact (H _ eq_refl eq_refl).
Qed.

(** C6, amended.  Whether join or leave fails does not depend on the
    connection id being registered.  For every connection id, registered
    or not: when the room id renders to a string, the join-conversation
    and leave-conversation handlers return normally, print nothing and
    send nothing; when it does not, both throw the TypeError of the
    rendering.  On a connection id that is not registered a join changes
    nothing; on a registered one the id is a member of
    "conversation:"+id afterwards; after a leave the id is not a member
    of that room, registered or not.  A broadcast to a room without
    member leaves the server as it was. *)
Theorem join_leave_ignore_registration σ id v :
  match ToString v with
  | Normal s =>
      (∃ σ', on_join_conversation id v σ = Normal σ'
         ∧ console σ' = console σ
         ∧ (∀ c, received σ' c = received σ c)
         ∧ (id ∈ sockets σ → id ∈ members σ' ("conversation:" ++ s))
         ∧ (id ∉ sockets σ → σ' = σ))
      ∧ (∃ σ', on_leave_conversation id v σ = Normal σ'
         ∧ console σ' = console σ
         ∧ (∀ c, received σ' c = received σ c)
         ∧ (id ∉ members σ' ("conversation:" ++ s)))
  | Throw e =>
      on_join_conversation id v σ = Throw e
      ∧ on_leave_conversation id v σ = Throw e
  end
  ∧ (∀ room except p, members σ room = ∅ → broadcast room except p σ = σ).
Proof.
  split; [|intros room except p; apply broadcast_empty_room].
  destruct (ToString v) as [s|e] eqn:Hs.
  - split.
    + eexists. split; [by apply on_join_conversation_eq|].
      destruct (decide (id ∈ sockets σ)) as [Hin|Hout].
      * rewrite socket_join_connected by done.
        split; [done|]. split; [done|]. split; [|done].
        intros _. rewrite members_addAll, decide_True by done. set_solver.
      * rewrite socket_join_gone by done. done.
    + eexists. split; [by apply on_leave_conversation_eq|].
      split; [done|]. split; [done|].
      unfold socket_leave. rewrite members_del, decide_True by done.
      set_solver.
  - unfold on_join_conversation, on_leave_conversation, template.
    by rewrite Hs.
Qed.

Lemma join_leave_ignore_registration_witness :
  (∃ σ', on_join_conversation "X" (JStr "c1") alone = Normal σ'
     ∧ console σ' = console alone
     ∧ "X" ∈ members σ' ("conversation:" ++ "c1"))
  ∧ (∃ σ', on_join_conversation "X" (JStr "c1") departed = Normal σ'
     ∧ console σ' = console departed
     ∧ σ' = departed).
Proof.
  split.
  - destruct (join_leave_ignore_registration alone "X" (JStr "c1"))
      as [[(σ' & Hrun & Hlog & _ & Hin & _) _] _].
    exists σ'. split; [exact Hrun|]. split; [exact Hlog|].
    apply Hin. vm_compute. reflexivity.
  - destruct (join_leave_ignore_registration departed "X" (JStr "c1"))
      as [[(σ' & Hrun & Hlog & _ & _ & Hout) _] _].
    exists σ'. split; [exact Hrun|]. split; [exact Hlog|].
    apply Hout. vm_compute. discriminate.
Defined.

(** A room id that does not render: an object whose own [toString]
    property hides the built-in conversion.  The handlers throw, for a
    registered connection as for one that is gone. *)
Example unrenderable_room_id_throws :
  on_join_conversation "X" (JObj [("toString", JStr "x")]) alone
  = Throw (TypeError "Cannot convert object to primitive value")
  ∧ on_leave_conversation "X" (JObj [("toString", JStr "x")]) alone
    = Throw (TypeError "Cannot convert object to primitive value")
  ∧ on_join_conversation "X" (JObj [("toString", JStr "x")]) departed
    = Throw (TypeError "Cannot convert object to primitive value").
Proof. repeat split; reflexivity. Qed.

Example registered_join_then_leave :
  (σ1 ← dispatch "X" (join_conversation (JStr "c1")) alone;
   σ2 ← dispatch "X" (leave_conversation (JStr "c1")) σ1;
   Normal (bool_decide ("X" ∈ members σ1 "conversation:c1"),
           bool_decide ("X" ∈ members σ2 "conversation:c1"),
           console σ2))
  = Normal (true, false, console alone).
Proof. vm_compute. reflexivity. Qed.

(** Against C7 as stated: a stream-chat payload without [message] is not
    dropped, and no warning is printed: [emit] is called with
    [undefined] for the message, the packet goes to the sender, alone in
    the room, and the console is as before. *)
Lemma missing_field_is_not_dropped :
  "X" ∈ sockets alone
  ∧ Get chat_no_message "message" = JUndefined
  ∧ ¬ dropped_with_warning alone (dispatch "X" (stream_chat chat_no_message) alone)
  ∧ (σ' ← dispatch "X" (stream_chat chat_no_message) alone;
     Normal (received alone "X", received σ' "X", console σ'))
    = Normal ([], [mkPacket "chat-message" JUndefined], console alone).
Proof.
  split; [vm_compute; reflexivity|]. split; [reflexivity|]. split.
  - intros (σ' & Hrun & Hsame & _). specialize (Hsame "X").
    vm_compute in Hrun. injection Hrun as <-. vm_compute in Hsame. discriminate.
  - vm_compute. reflexivity.
Qed.

(** C7, amended.  Take an event from a connected socket whose payload
    is neither null nor undefined, whatever fields it lacks and whether
    or not it is an object.  If its streamId, present or missing,
    renders to a string, stream-chat and stream-reaction are not dropped
    and nothing is printed: the handler returns normally and its only
    effect is the broadcast, to the room "stream:" followed by the
    rendered id (hence "stream:undefined" when the id is missing), of
    the packet built from the payload as it is, with [undefined] passed
    to [emit] for each missing field.  If its conversationId renders to
    a string, the same holds of typing and the room "conversation:"
    followed by the rendered id, the sender excepted.  In each case the
    connection registry, the room memberships and the console are as
    before. *)
Theorem malformed_payload_is_broadcast σ X payload :
  X ∈ sockets σ →
  RequireObjectCoercible payload = Normal () →
  (∀ stream, ToString (Get payload "streamId") = Normal stream →
     (∃ σ', dispatch X (stream_chat payload) σ = Normal σ'
        ∧ broadcast_only σ σ' ("stream:" ++ stream) ∅
            (mkPacket "chat-message" (Get payload "message")))
     ∧ (∃ σ', dispatch X (stream_reaction payload) σ = Normal σ'
        ∧ broadcast_only σ σ' ("stream:" ++ stream) ∅
            (mkPacket "reaction"
               (JObj [("emoji", Get payload "emoji");
                      ("userId", Get payload "userId")]))))
  ∧ (∀ conv, ToString (Get payload "conversationId") = Normal conv →
     ∃ σ', dispatch X (typing payload) σ = Normal σ'
       ∧ broadcast_only σ σ' ("conversation:" ++ conv) {[X]}
           (mkPacket "user-typing"
              (JObj [("userId", Get payload "userId");
                     ("isTyping", Get payload "isTyping")]))).
Proof.
  intros HX Hp. split.
  - intros stream Hs. split; eexists;
      (split; [rewrite dispatch_connected by done; simpl
              | apply broadcast_is_broadcast_only]).
    + by apply on_stream_chat_eq.
    + by apply on_stream_reaction_eq.
  - intros conv Hc. eexists.
    split; [rewrite dispatch_connected by done; simpl
           | apply broadcast_is_broadcast_only].
    by apply on_typing_eq.
Qed.

Lemma malformed_payload_is_broadcast_witness :
  ((∃ σ', dispatch "X" (stream_chat empty_payload) undefined_room = Normal σ'
      ∧ broadcast_only undefined_room σ' ("stream:" ++ "undefined") ∅
          (mkPacket "chat-message" (Get empty_payload "message")))
   ∧ (∃ σ', dispatch "X" (stream_reaction empty_payload) undefined_room = Normal σ'
      ∧ broadcast_only undefined_room σ' ("stream:" ++ "undefined") ∅
          (mkPacket "reaction"
             (JObj [("emoji", Get empty_payload "emoji");
                    ("userId", Get empty_payload "userId")]))))
  ∧ (∃ σ', dispatch "X" (typing empty_payload) undefined_room = Normal σ'
     ∧ broadcast_only undefined_room σ' ("conversation:" ++ "undefined") {[ "X" ]}
         (mkPacket "user-typing"
            (JObj [("userId", Get empty_payload "userId");
                   ("isTyping", Get empty_payload "isTyping")]))).
Proof.
  assert (HX : "X" ∈ sockets undefined_room) by (vm_compute; reflexivity).
  destruct (malformed_payload_is_broadcast undefined_room "X" empty_payload
              HX eq_refl) as [Hstream Hconv].
  split.
  - apply (Hstream "undefined"). reflexivity.
  - apply (Hconv "undefined"). reflexivity.
Defined.

(** The room id fields are read independently: a stream-chat whose
    conversationId does not render is broadcast all the same, and a
    payload whose streamId does not render makes stream-chat throw. *)
Example room_id_fields :
  (σ' ← dispatch "X" (stream_chat
          (JObj [("streamId", JStr "s1"); ("message", JStr "hi");
                 ("conversationId", JObj [("toString", JStr "x")])])) alone;
   Normal (received σ' "X"))
  = Normal [mkPacket "chat-message" (JStr "hi")]
  ∧ dispatch "X" (stream_chat
       (JObj [("streamId", JObj [("toString", JStr "x")]); ("message", JStr "hi")]))
       alone
    = Throw (TypeError "Cannot convert object to primitive value").
Proof. vm_compute. split; reflexivity. Qed.

Example empty_payload_reaches_undefined_room :
  (σ' ← dispatch "X" (stream_chat empty_payload) undefined_room;
   Normal (received undefined_room "Y", received σ' "Y"))
  = Normal ([], [mkPacket "chat-message" JUndefined]).
Proof. vm_compute. reflexivity. Qed.

Example nullish_payload_throws :
  dispatch "A" (typing JUndefined) conversation
  = Throw (TypeError "Cannot destructure 'undefined' as it is undefined.")
  ∧ dispatch "A" (stream_chat JNull) conversation
    = Throw (TypeError "Cannot destructure 'null' as it is null.")
  ∧ is_normal (run conversation [Emit "A" (stream_reaction JNull);
                                 Emit "B" (typing typing_on)]) = false.
Proof. vm_compute. repeat split; reflexivity. Qed.

Example non_object_payload :
  (σ' ← dispatch "A" (typing (JStr "oops")) conversation;
   Normal (received σ' "B", console σ'))
  = Normal (received conversation "B", console conversation).
Proof. vm_compute. reflexivity. Qed.

(** ** Ordering *)

Section Order.
Implicit Types (σ : Server) (c : string).

Lemma received_handle_prefix socket ev σ σ' c :
  handle socket ev σ = Normal σ' → received σ c `prefix_of` received σ' c.
Proof.
  assert (Hb : ∀ room except p σ0,
             received σ0 c `prefix_of` received (broadcast room except p σ0) c).
  { intros. rewrite received_broadcast. case_decide; [by apply prefix_app_r | done]. }
  handler_cases; try done;
    first [ apply Hb
          | apply (Hb _ _ _ (addAll _ _ _))
          | apply (Hb _ _ _ (del _ _ _)) ].
Qed.

(** What a client has been sent is only ever extended at the end. *)
Lemma received_run_prefix inputs : ∀ σ σ' c,
  run σ inputs = Normal σ' → received σ c `prefix_of` received σ' c.
Proof.
  induction inputs as [|i rest IH]; simpl; intros σ σ' c.
  - by intros [= <-].
  - intros (σ1 & H1 & Hrest)%bind_Normal.
    etrans; [|by eapply IH].
    destruct i as [socket|socket ev|socket]; simpl in H1.
    + by injection H1 as <-.
    + revert H1. unfold dispatch. case_decide.
      * apply received_handle_prefix.
      * by intros [= <-].
    + injection H1 as <-. unfold on_disconnect. case_decide; [|done].
      unfold received, on_disconnect_listener, console_log, close; simpl.
      by rewrite outbox_delAll.
Qed.

Lemma broadcast_twice_in_order room σ c e1 e2 p1 p2 :
  c ∈ members σ room → c ∈ sockets σ → c ∉ e1 → c ∉ e2 →
  received (broadcast room e2 p2 (broadcast room e1 p1 σ)) c
  = (received σ c ++ [p1; p2])%list.
Proof.
  intros Hm Hs H1 H2.
  rewrite delivered; [| by rewrite members_broadcast | done | by rewrite sockets_broadcast].
  rewrite delivered by done. by rewrite <- app_assoc.
Qed.
End Order.

(** The packets a sequence of broadcasts to one room, each excepting
    some sockets but not [c], adds to what [c] is sent. *)
Lemma broadcasts_in_order room c (bs : list (gset string * Packet)) : ∀ σ,
  c ∈ members σ room → c ∈ sockets σ →
  Forall (fun b => c ∉ b.1) bs →
  received (foldl (fun σ0 b => broadcast room b.1 b.2 σ0) σ bs) c
  = (received σ c ++ bs.*2)%list.
Proof.
  induction bs as [|[e p] bs IH]; intros σ Hm Hs Hbs; simpl.
  - by rewrite app_nil_r.
  - apply Forall_cons in Hbs as [He Hbs]. simpl in He.
    rewrite IH; [| by rewrite members_broadcast | by rewrite sockets_broadcast | done].
    rewrite delivered by done. by rewrite <- app_assoc.
Qed.

(** C8.  For every room R and every connected member C of R: the packets
    of two broadcasts to R issued one after the other, of which neither
    excepts C, are appended to what C is sent in the order issued.  So it
    is for the events the handlers broadcast: the user-typing packets of
    a sequence of typing events for one conversation, from any senders
    other than C, reach a member C of the conversation room in the order
    the events were processed, and the chat-message packets of a sequence
    of stream-chat events for one stream, from any senders, reach a
    member C of the stream room in that order.  Each client has its own
    outbox, so nothing orders what different clients are sent. *)
Theorem fifo_per_recipient σ C :
  C ∈ sockets σ →
  (∀ R e1 e2 p1 p2,
     C ∈ members σ R → C ∉ e1 → C ∉ e2 →
     received (broadcast R e2 p2 (broadcast R e1 p1 σ)) C
     = (received σ C ++ [p1; p2])%list)
  ∧ (∀ s (ts : list (string * JSValue)),
       C ∈ members σ ("conversation:" ++ s) →
       Forall (fun st => st.1 ∈ sockets σ ∧ st.1 ≠ C
                         ∧ RequireObjectCoercible st.2 = Normal ()
                         ∧ ToString (Get st.2 "conversationId") = Normal s) ts →
       ∃ σ', run σ ((fun st => Emit st.1 (typing st.2)) <$> ts) = Normal σ'
         ∧ received σ' C
           = (received σ C
              ++ ((fun st => mkPacket "user-typing"
                               (JObj [("userId", Get st.2 "userId");
                                      ("isTyping", Get st.2 "isTyping")])) <$> ts))%list)
  ∧ (∀ s (ms : list (string * JSValue)),
       C ∈ members σ ("stream:" ++ s) →
       Forall (fun sm => sm.1 ∈ sockets σ
                         ∧ RequireObjectCoercible sm.2 = Normal ()
                         ∧ ToString (Get sm.2 "streamId") = Normal s) ms →
       ∃ σ', run σ ((fun sm => Emit sm.1 (stream_chat sm.2)) <$> ms) = Normal σ'
         ∧ received σ' C
           = (received σ C
              ++ ((fun sm => mkPacket "chat-message" (Get sm.2 "message")) <$> ms))%list).
Proof.
  intros HC. split; [|split].
  - intros R e1 e2 p1 p2 Hm H1 H2. by apply broadcast_twice_in_order.
  - intros s ts Hm Hts.
    set (pk := fun st : string * JSValue =>
                 mkPacket "user-typing"
                   (JObj [("userId", Get st.2 "userId");
                          ("isTyping", Get st.2 "isTyping")])).
    set (room := "conversation:" ++ s) in *.
    assert (Hrun : run σ ((fun st => Emit st.1 (typing st.2)) <$> ts)
                   = Normal (foldl (fun σ0 b => broadcast room b.1 b.2 σ0) σ
                               ((fun st => ({[st.1]}, pk st)) <$> ts))).
    { clear Hm HC. revert σ Hts.
      induction ts as [|[S t] ts IH]; intros σ Hts; simpl; [done|].
      apply Forall_cons in Hts as [(HS & _ & Hp & Hs) Hts]. simpl in *.
      rewrite dispatch_connected by done. simpl.
      rewrite (on_typing_eq _ _ _ _ Hp Hs). simpl. unfold socket_to_emit.
      apply IH. eapply Forall_impl; [exact Hts|].
      intros st (? & ? & ? & ?). by rewrite sockets_broadcast. }
    eexists. split; [exact Hrun|].
    rewrite broadcasts_in_order; [| done | done |].
    + f_equal. rewrite <- list_fmap_compose. done.
    + apply Forall_fmap. eapply Forall_impl; [exact Hts|].
      intros st (_ & Hne & _). simpl. set_solver.
  - intros s ms Hm Hms.
    set (pk := fun sm : string * JSValue =>
                 mkPacket "chat-message" (Get sm.2 "message")).
    set (room := "stream:" ++ s) in *.
    assert (Hrun : run σ ((fun sm => Emit sm.1 (stream_chat sm.2)) <$> ms)
                   = Normal (foldl (fun σ0 b => broadcast room b.1 b.2 σ0) σ
                               ((fun sm => (∅, pk sm)) <$> ms))).
    { clear Hm HC. revert σ Hms.
      induction ms as [|[S m] ms IH]; intros σ Hms; simpl; [done|].
      apply Forall_cons in Hms as [(HS & Hp & Hs) Hms]. simpl in *.
      rewrite dispatch_connected by done. simpl.
      rewrite (on_stream_chat_eq _ _ _ _ Hp Hs). simpl. unfold io_to_emit.
      apply IH. eapply Forall_impl; [exact Hms|].
      intros sm (? & ? & ?). by rewrite sockets_broadcast. }
    eexists. split; [exact Hrun|].
    rewrite broadcasts_in_order; [| done | done |].
    + f_equal. rewrite <- list_fmap_compose. done.
    + apply Forall_fmap. apply Forall_forall. intros sm _. simpl. set_solver.
Qed.

Lemma fifo_per_recipient_witness :
  received (broadcast "stream:s1" {[ "X" ]} (mkPacket "second" JNull)
              (broadcast "stream:s1" ∅ (mkPacket "first" JNull) viewers)) "Y"
  = (received viewers "Y" ++ [mkPacket "first" JNull; mkPacket "second" JNull])%list
  ∧ (∃ σ', run viewers [Emit "X" (typing typing_on); Emit "X" (typing typing_off)]
           = Normal σ'
       ∧ received σ' "Y"
         = (received viewers "Y"
            ++ [mkPacket "user-typing"
                  (JObj [("userId", JStr "u1"); ("isTyping", JBool true)]);
                mkPacket "user-typing"
                  (JObj [("userId", JStr "u1"); ("isTyping", JBool false)])])%list)
  ∧ (∃ σ', run viewers [Emit "X" (stream_chat chat_hi);
                        Emit "Y" (stream_chat (JObj [("streamId", JStr "s1");
                                                     ("message", JStr "bye")]))]
           = Normal σ'
       ∧ received σ' "Y"
         = (received viewers "Y"
            ++ [mkPacket "chat-message" (JStr "hi");
                mkPacket "chat-message" (JStr "bye")])%list).
Proof.
  assert (HY : "Y" ∈ sockets viewers) by (vm_compute; reflexivity).
  destruct (fifo_per_recipient viewers "Y" HY) as (Hroom & Htyping & Hchat).
  split; [|split].
  - apply Hroom.
    + vm_compute. reflexivity.
    + vm_compute. discriminate.
    + vm_compute. discriminate.
  - apply (Htyping "c1" [("X", typing_on); ("X", typing_off)]).
    + vm_compute. reflexivity.
    + repeat constructor; try (vm_compute; reflexivity); discriminate.
  - apply (Hchat "s1" [("X", chat_hi);
                       ("Y", JObj [("streamId", JStr "s1"); ("message", JStr "bye")])]).
    + vm_compute. reflexivity.
    + repeat constructor; vm_compute; reflexivity.
Defined.

Example typing_order :
  (σ' ← run conversation [Emit "A" (typing typing_on); Emit "A" (typing typing_off)];
   Normal (received σ' "B", received σ' "A"))
  = Normal
      ([mkPacket "user-typing" (JObj [("userId", JStr "u1"); ("isTyping", JBool true)]);
        mkPacket "user-typing" (JObj [("userId", JStr "u1"); ("isTyping", JBool false)])],
       []).
Proof. vm_compute. reflexivity. Qed.

(** ** Idempotence of join and leave *)

Section Idempotence.
Implicit Types (σ : Server) (id room : string).

Lemma addAll_idemp id room σ : addAll id room (addAll id room σ) = addAll id room σ.
Proof.
  unfold addAll at 1. rewrite members_addAll, membershipsOf_addAll.
  rewrite !decide_True by done. unfold addAll; simpl.
  rewrite !insert_insert_eq.
  f_equal; f_equal; set_solver.
Qed.

Lemma del_idemp id room σ : del id room (del id room σ) = del id room σ.
Proof.
  unfold del at 1 3; simpl. rewrite _del_idemp. f_equal.
  destruct (sids σ !! id) as [mine|] eqn:Hmine.
  - rewrite lookup_insert_eq, insert_insert_eq. f_equal. set_solver.
  - by rewrite Hmine.
Qed.

Lemma socket_join_idemp id room σ :
  socket_join id room (socket_join id room σ) = socket_join id room σ.
Proof.
  unfold socket_join. destruct (decide (id ∈ sockets σ)) as [Hin|Hout].
  - change (sockets (addAll id room σ)) with (sockets σ).
    rewrite decide_True by done. apply addAll_idemp.
  - by rewrite decide_False.
Qed.
End Idempotence.

(** C9.  Leaving a room twice in a row leaves the server exactly as
    leaving once does, and the same holds for joining twice; this is so
    for [socket.leave] and [socket.join] and for the leave-conversation
    and join-conversation handlers built on them. *)
Theorem join_leave_idempotent σ C R v :
  socket_leave C R (socket_leave C R σ) = socket_leave C R σ
  ∧ socket_join C R (socket_join C R σ) = socket_join C R σ
  ∧ (σ1 ← on_leave_conversation C v σ; on_leave_conversation C v σ1)
    = on_leave_conversation C v σ
  ∧ (σ1 ← on_join_conversation C v σ; on_join_conversation C v σ1)
    = on_join_conversation C v σ.
Proof.
  split; [apply del_idemp|]. split; [apply socket_join_idemp|].
  unfold on_leave_conversation, on_join_conversation, template.
  destruct (ToString v) as [s|e]; simpl; [|done].
  unfold socket_leave. by rewrite del_idemp, socket_join_idemp.
Qed.

Example leave_twice :
  (σ1 ← dispatch "A" (leave_conversation (JStr "c1")) conversation;
   σ2 ← dispatch "A" (leave_conversation (JStr "c1")) σ1;
   Normal (bool_decide ("A" ∈ members σ2 "conversation:c1"),
           bool_decide ("B" ∈ members σ2 "conversation:c1"),
           size (members σ2 "conversation:c1")))
  = Normal (false, true, 2).
Proof. vm_compute. reflexivity. Qed.


(** ** The User model *)

Section Serialization.
Implicit Types (k : string) (fields : list (string * JSValue)) (v : JSValue).

Lemma has_own_false k fields : has_own k fields = false ↔ k ∉ fields.*1.
Proof. unfold has_own. by rewrite bool_decide_eq_false. Qed.

Lemma elem_of_keys_delete_own k k' fields :
  k ∈ (delete_own k' fields).*1 ↔ k ∈ fields.*1 ∧ k ≠ k'.
Proof.
  unfold delete_own. rewrite !list_elem_of_fmap. split.
  - intros ([k0 v0] & -> & [Hne Hin]%list_elem_of_filter). simpl in *.
    split; [|done]. by exists (k0, v0).
  - intros [([k0 v0] & -> & Hin) Hne]. exists (k0, v0). split; [done|].
    by apply list_elem_of_filter.
Qed.

Lemma has_own_delete_own k fields : has_own k (delete_own k fields) = false.
Proof. rewrite has_own_false, elem_of_keys_delete_own. tauto. Qed.

Lemma has_own_delete_own_other k k' fields :
  has_own k fields = false → has_own k (delete_own k' fields) = false.
Proof. rewrite !has_own_false, elem_of_keys_delete_own. tauto. Qed.

Lemma has_prop_delete_prop k v : has_prop k (delete_prop k v) = false.
Proof. destruct v; simpl; auto using has_own_delete_own. Qed.

Lemma has_prop_delete_prop_other k k' v :
  has_prop k v = false → has_prop k (delete_prop k' v) = false.
Proof. destruct v; simpl; auto using has_own_delete_own_other. Qed.

Lemma strip_provider_clean entry :
  has_prop "accessToken" (strip_provider entry) = false
  ∧ has_prop "refreshToken" (strip_provider entry) = false
  ∧ has_prop "accessSecret" (strip_provider entry) = false.
Proof.
  unfold strip_provider. destruct (truthy entry) eqn:Ht.
  - repeat split.
    + do 2 apply has_prop_delete_prop_other. apply has_prop_delete_prop.
    + apply has_prop_delete_prop_other. apply has_prop_delete_prop.
    + apply has_prop_delete_prop.
  - destruct entry; simpl in *; try done.
Qed.

Lemma entries_of_strip_profile profile :
  entries_of (strip_profile profile) = strip_provider <$> entries_of profile.
Proof.
  destruct profile as [| | | | |elems|entries]; simpl; try done.
  rewrite <- !list_fmap_compose. by apply list_fmap_ext; intros ? [].
Qed.

Lemma Get_strip_oauthProfile fields :
  Get (JObj ((fun kv => if decide (kv.1 = "oauthProfile")
                        then (kv.1, strip_profile kv.2) else kv) <$> fields))
    "oauthProfile"
  = strip_profile (Get (JObj fields) "oauthProfile").
Proof.
  simpl. induction fields as [|[k0 v0] rest IH]; simpl; [done|].
  destruct (decide (k0 = "oauthProfile")) as [->|Hne]; simpl.
  - done.
  - rewrite decide_False by done. apply IH.
Qed.

Lemma keys_strip_oauthProfile fields :
  ((fun kv => if decide (kv.1 = "oauthProfile")
              then (kv.1, strip_profile kv.2) else kv) <$> fields).*1
  = fields.*1.
Proof.
  rewrite <- list_fmap_compose. apply list_fmap_ext.
  intros ? [k0 v0]; simpl. by case_decide.
Qed.
End Serialization.

(** C10.  Whatever the user document, the object [toJSON] returns has no
    own property password, resetPasswordToken, emailVerificationToken,
    twoFactorSecret or backupCodes, and no entry of its oauthProfile has
    an own property accessToken, refreshToken or accessSecret. *)
Theorem toJSON_hides_secrets doc :
  has_own "password" (toJSON doc) = false
  ∧ has_own "resetPasswordToken" (toJSON doc) = false
  ∧ has_own "emailVerificationToken" (toJSON doc) = false
  ∧ has_own "twoFactorSecret" (toJSON doc) = false
  ∧ has_own "backupCodes" (toJSON doc) = false
  ∧ Forall (fun entry => has_prop "accessToken" entry = false
                         ∧ has_prop "refreshToken" entry = false
                         ∧ has_prop "accessSecret" entry = false)
      (entries_of (Get (JObj (toJSON doc)) "oauthProfile")).
Proof.
  assert (Hkeys : ∀ k, has_own k (toJSON doc)
    = has_own k (delete_own "backupCodes" (delete_own "twoFactorSecret"
        (delete_own "emailVerificationToken" (delete_own "resetPasswordToken"
          (delete_own "password" doc)))))).
  { intros k. unfold toJSON. case_match; [|done].
    unfold has_own. by rewrite keys_strip_oauthProfile. }
  rewrite !Hkeys.
  repeat split;
    try (repeat first [ apply has_own_delete_own
                      | apply has_own_delete_own_other ]).
  unfold toJSON. case_match eqn:Ht.
  - rewrite Get_strip_oauthProfile, entries_of_strip_profile.
    apply Forall_fmap, Forall_forall. intros entry _. apply strip_provider_clean.
  - destruct (Get _ "oauthProfile"); simpl in *; try done; constructor.
Qed.

Example toJSON_sample :
  toJSON sample_user
  = [("_id", JStr "64b0c0ffee");
     ("name", JStr "Ada");
     ("email", JStr "ada@example.org");
     ("oauthProfile",
       JObj [("google", JObj [("id", JStr "g-1")]);
             ("twitter", JObj [("id", JStr "t-1")])])].
Proof. vm_compute. reflexivity. Qed.

(** * Further properties of the code *)

Import Notions.

(** ** The remaining handlers of server.js *)

(** X1.  leave-stream(streamId) from a connected socket X, member of the
    room or not: X is not in room "stream:"+streamId afterwards, the
    other members stay, each of them is sent viewer-left with
    [{socketId: X}], and nobody else, X included, is sent anything. *)
Theorem leave_stream_notifies_rest σ X v s :
  wf σ → X ∈ sockets σ → ToString v = Normal s →
  ∃ σ', dispatch X (leave_stream v) σ = Normal σ'
    ∧ (X ∉ members σ' ("stream:" ++ s))
    ∧ (("stream:" ++ s) ∉ membershipsOf σ' X)
    ∧ (∀ Y, Y ≠ X →
         (Y ∈ members σ' ("stream:" ++ s) ↔ Y ∈ members σ ("stream:" ++ s))
         ∧ received σ' Y
           = if decide (Y ∈ members σ ("stream:" ++ s))
             then (received σ Y
                   ++ [mkPacket "viewer-left" (JObj [("socketId", JStr X)])])%list
             else received σ Y)
    ∧ received σ' X = received σ X.
Proof.
  intros Hwf HX Hs. eexists. split; [|split; [|split; [|split]]].
  - rewrite dispatch_connected by done. simpl. by apply on_leave_stream_eq.
  - unfold socket_to_emit, socket_leave. rewrite members_broadcast, members_del.
    rewrite decide_True by done. set_solver.
  - unfold socket_to_emit, socket_leave.
    destruct (broadcast_frame ("stream:" ++ s) {[X]}
                (mkPacket "viewer-left" (JObj [("socketId", JStr X)]))
                (del X ("stream:" ++ s) σ)) as (_ & _ & Hi & _).
    unfold membershipsOf at 1. rewrite Hi.
    change (("stream:" ++ s) ∉ membershipsOf (del X ("stream:" ++ s) σ) X).
    rewrite membershipsOf_del, decide_True by done. set_solver.
  - intros Y Hne. unfold socket_to_emit, socket_leave. split.
    + rewrite members_broadcast, members_del, decide_True by done. set_solver.
    + rewrite received_broadcast.
      assert (Y ∈ recipients (del X ("stream:" ++ s) σ) ("stream:" ++ s) {[X]}
              ↔ Y ∈ members σ ("stream:" ++ s)) as Hiff.
      { rewrite elem_of_recipients, members_del, decide_True by done. simpl.
        split; [set_solver|]. intros HY.
        split; [set_solver|]. split; [set_solver|]. by eapply wf_connected. }
      repeat case_decide; try done; tauto.
  - unfold socket_to_emit. rewrite skipped; [done|]. right; left. set_solver.
Qed.

Lemma leave_stream_notifies_rest_witness :
  ∃ σ', dispatch "X" (leave_stream (JStr "s1")) viewers = Normal σ'
    ∧ ("X" ∉ members σ' ("stream:" ++ "s1"))
    ∧ (("stream:" ++ "s1") ∉ membershipsOf σ' "X")
    ∧ (∀ Y, Y ≠ "X" →
         (Y ∈ members σ' ("stream:" ++ "s1") ↔ Y ∈ members viewers ("stream:" ++ "s1"))
         ∧ received σ' Y
           = if decide (Y ∈ members viewers ("stream:" ++ "s1"))
             then (received viewers Y
                   ++ [mkPacket "viewer-left" (JObj [("socketId", JStr "X")])])%list
             else received viewers Y)
    ∧ received σ' "X" = received viewers "X".
Proof.
  apply (leave_stream_notifies_rest viewers "X" (JStr "s1") "s1").
  - apply wf_check_sound. vm_compute. reflexivity.
  - vm_compute. reflexivity.
  - reflexivity.
Defined.

(** X2.  join(userId) from a connected socket X: X is in room
    "user:"+userId afterwards, one line "User <userId> joined their room"
    is printed, no other room changes and no client is sent anything. *)
Theorem join_user_room σ X v s :
  X ∈ sockets σ → ToString v = Normal s →
  ∃ σ', dispatch X (join v) σ = Normal σ'
    ∧ X ∈ members σ' ("user:" ++ s)
    ∧ ("user:" ++ s) ∈ membershipsOf σ' X
    ∧ console σ' = (console σ ++ [("User " ++ s ++ " joined their room")%string])%list
    ∧ (∀ c, received σ' c = received σ c)
    ∧ (∀ room, room ≠ "user:" ++ s → members σ' room = members σ room).
Proof.
  intros HX Hs. eexists. split; [|split; [|split; [|split; [|split]]]].
  - rewrite dispatch_connected by done. simpl.
    rewrite (on_join_eq _ _ _ _ Hs). by rewrite socket_join_connected.
  - change (X ∈ members (addAll X ("user:" ++ s) σ) ("user:" ++ s)).
    rewrite members_addAll, decide_True by done. set_solver.
  - change (("user:" ++ s) ∈ membershipsOf (addAll X ("user:" ++ s) σ) X).
    rewrite membershipsOf_addAll, decide_True by done. set_solver.
  - done.
  - done.
  - intros room Hne.
    change (members (addAll X ("user:" ++ s) σ) room = members σ room).
    by rewrite members_addAll, decide_False.
Qed.

Lemma join_user_room_witness :
  ∃ σ', dispatch "X" (join (JNum "42")) alone = Normal σ'
    ∧ "X" ∈ members σ' ("user:" ++ "42")
    ∧ ("user:" ++ "42") ∈ membershipsOf σ' "X"
    ∧ console σ' = (console alone ++ [("User " ++ "42" ++ " joined their room")%string])%list
    ∧ (∀ c, received σ' c = received alone c)
    ∧ (∀ room, room ≠ "user:" ++ "42" → members σ' room = members alone room).
Proof.
  apply (join_user_room alone "X" (JNum "42") "42").
  - vm_compute. reflexivity.
  - reflexivity.
Defined.

(** X3.  join-stream is repeated in its effect on clients, not in its
    effect on membership: handled twice for the same socket and stream,
    the second leaves rooms and memberships as the first left them, and
    the other members are sent viewer-joined twice. *)
Theorem join_stream_renotifies σ X v s :
  wf σ → X ∈ sockets σ → ToString v = Normal s →
  ∃ σ1 σ2, dispatch X (join_stream v) σ = Normal σ1
    ∧ dispatch X (join_stream v) σ1 = Normal σ2
    ∧ rooms σ2 = rooms σ1 ∧ sids σ2 = sids σ1
    ∧ ∀ Y, Y ∈ members σ ("stream:" ++ s) → Y ≠ X →
        received σ2 Y
        = (received σ Y
           ++ [mkPacket "viewer-joined" (JObj [("socketId", JStr X)]);
               mkPacket "viewer-joined" (JObj [("socketId", JStr X)])])%list.
Proof.
  intros Hwf HX Hs.
  set (room := "stream:" ++ s).
  set (p := mkPacket "viewer-joined" (JObj [("socketId", JStr X)])).
  set (σ1 := broadcast room {[X]} p (addAll X room σ)).
  assert (HX1 : X ∈ sockets σ1) by by unfold σ1; rewrite sockets_broadcast.
  assert (Hm1 : ∀ r, members σ1 r = members (addAll X room σ) r)
    by (intros; apply members_broadcast).
  destruct (broadcast_frame room {[X]} p (addAll X room σ)) as (Hs1 & Hr1 & Hi1 & _).
  fold σ1 in Hs1, Hr1, Hi1.
  assert (Hadd : addAll X room σ1
                 = {| sockets := sockets σ1; rooms := rooms σ1; sids := sids σ1;
                      outbox := outbox σ1; console := console σ1 |}).
  { unfold addAll. f_equal.
    - rewrite Hr1. unfold members. rewrite Hr1.
      change (room_members (rooms (addAll X room σ)) room)
        with (members (addAll X room σ) room).
      rewrite members_addAll, decide_True by done. simpl.
      rewrite insert_insert_eq. f_equal. set_solver.
    - rewrite Hi1. unfold membershipsOf. rewrite Hi1.
      change (default ∅ (sids (addAll X room σ) !! X))
        with (membershipsOf (addAll X room σ) X).
      rewrite membershipsOf_addAll, decide_True by done. simpl.
      rewrite insert_insert_eq. f_equal. set_solver. }
  exists σ1, (broadcast room {[X]} p (addAll X room σ1)).
  split; [|split; [|split; [|split]]].
  - rewrite dispatch_connected by done. simpl.
    rewrite (on_join_stream_eq _ _ _ _ Hs). by rewrite socket_join_connected.
  - rewrite dispatch_connected by done. simpl.
    rewrite (on_join_stream_eq _ _ _ _ Hs). by rewrite socket_join_connected.
  - destruct (broadcast_frame room {[X]} p (addAll X room σ1)) as (_ & -> & _).
    by rewrite Hadd.
  - destruct (broadcast_frame room {[X]} p (addAll X room σ1)) as (_ & _ & -> & _).
    by rewrite Hadd.
  - intros Y HY Hne.
    assert (HY1 : Y ∈ members (addAll X room σ) room).
    { rewrite members_addAll, decide_True by done. set_solver. }
    assert (HYs : Y ∈ sockets σ) by by eapply wf_connected.
    rewrite delivered; [| | set_solver | simpl; by rewrite Hs1].
    + change (received (addAll X room σ1) Y) with (received σ1 Y).
      unfold σ1. rewrite delivered; [| done | set_solver | done].
      by rewrite <- app_assoc.
    + rewrite members_addAll, decide_True by done. rewrite Hm1. set_solver.
Qed.

Lemma join_stream_renotifies_witness :
  ∃ σ1 σ2, dispatch "X" (join_stream (JStr "s1")) viewers = Normal σ1
    ∧ dispatch "X" (join_stream (JStr "s1")) σ1 = Normal σ2
    ∧ rooms σ2 = rooms σ1 ∧ sids σ2 = sids σ1
    ∧ ∀ Y, Y ∈ members viewers ("stream:" ++ "s1") → Y ≠ "X" →
        received σ2 Y
        = (received viewers Y
           ++ [mkPacket "viewer-joined" (JObj [("socketId", JStr "X")]);
               mkPacket "viewer-joined" (JObj [("socketId", JStr "X")])])%list.
Proof.
  apply (join_stream_renotifies viewers "X" (JStr "s1") "s1").
  - apply wf_check_sound. vm_compute. reflexivity.
  - vm_compute. reflexivity.
  - reflexivity.
Defined.

Section Isolation.
Implicit Types (σ : Server) (X Y room : string).

Lemma others_untouched_frame X σ σ' :
  sockets σ' = sockets σ → rooms σ' = rooms σ → sids σ' = sids σ →
  others_untouched X σ σ'.
Proof.
  intros Hs Hr Hi. split; [done|]. intros Y _.
  unfold membershipsOf, members. by rewrite Hr, Hi.
Qed.

Lemma others_untouched_trans X σ1 σ2 σ3 :
  others_untouched X σ1 σ2 → others_untouched X σ2 σ3 → others_untouched X σ1 σ3.
Proof.
  intros [Hs1 H1] [Hs2 H2]. split; [congruence|]. intros Y Hne.
  destruct (H1 Y Hne) as [Ha Hb], (H2 Y Hne) as [Hc Hd].
  split; [congruence|]. intros room. by rewrite Hd.
Qed.

Lemma others_untouched_addAll X room σ : others_untouched X σ (addAll X room σ).
Proof.
  split; [done|]. intros Y Hne. split.
  - by rewrite membershipsOf_addAll, decide_False.
  - intros room'. rewrite members_addAll. case_decide; subst; set_solver.
Qed.

Lemma others_untouched_del X room σ : others_untouched X σ (del X room σ).
Proof.
  split; [done|]. intros Y Hne. split.
  - by rewrite membershipsOf_del, decide_False.
  - intros room'. rewrite members_del. case_decide; subst; set_solver.
Qed.

Lemma others_untouched_broadcast X room except p σ :
  others_untouched X σ (broadcast room except p σ).
Proof.
  destruct (broadcast_frame room except p σ) as (? & ? & ? & _).
  by apply others_untouched_frame.
Qed.
End Isolation.

(** X4.  Whatever event a socket X emits, the set of connected sockets
    is unchanged, and for every other socket Y both the rooms Y is in and
    Y's presence in each room are unchanged: a client can only change its
    own memberships. *)
Theorem events_change_only_own_memberships σ X ev σ' :
  dispatch X ev σ = Normal σ' →
  sockets σ' = sockets σ
  ∧ ∀ Y, Y ≠ X →
      membershipsOf σ' Y = membershipsOf σ Y
      ∧ ∀ room, Y ∈ members σ' room ↔ Y ∈ members σ room.
Proof.
  unfold dispatch. case_decide; [|by intros [= <-]].
  change (handle X ev σ = Normal σ' → others_untouched X σ σ').
  handler_cases;
    eauto using others_untouched_trans, others_untouched_addAll,
      others_untouched_del, others_untouched_broadcast,
      others_untouched_frame.
Qed.

Lemma events_change_only_own_memberships_witness :
  sockets (del "A" "conversation:c1" conversation) = sockets conversation
  ∧ ∀ Y, Y ≠ "A" →
      membershipsOf (del "A" "conversation:c1" conversation) Y
      = membershipsOf conversation Y
      ∧ ∀ room, Y ∈ members (del "A" "conversation:c1" conversation) room
                ↔ Y ∈ members conversation room.
Proof.
  apply (events_change_only_own_memberships conversation "A"
           (leave_conversation (JStr "c1"))).
  vm_compute. reflexivity.
Defined.

(** X5.  An event only touches rooms of its own kind: after any event,
    the member set of every room whose name does not start with the
    prefix its handler uses ("user:", "conversation:" or "stream:") is
    what it was. *)
Theorem events_stay_in_their_namespace σ X ev σ' room :
  dispatch X ev σ = Normal σ' →
  (∀ s, room ≠ namespace ev ++ s) →
  members σ' room = members σ room.
Proof.
  unfold dispatch. case_decide; [|by intros [= <-]].
  intros Hrun Hroom. revert Hrun.
  destruct ev as [v|v|v|v|v|v|v|v]; simpl in *.
  - unfold on_join.
    intros (r & (s & _ & ->)%template_inv & (u & _ & [= <-])%bind_Normal)%bind_Normal.
    rewrite socket_join_connected by done.
    change (members (addAll X ("user:" ++ s) σ) room = members σ room).
    rewrite members_addAll, decide_False; [done|]. intros <-. by eapply Hroom.
  - unfold on_join_conversation.
    intros (r & (s & _ & ->)%template_inv & [= <-])%bind_Normal.
    rewrite socket_join_connected by done. rewrite members_addAll, decide_False; [done|].
    intros <-. by eapply Hroom.
  - unfold on_leave_conversation.
    intros (r & (s & _ & ->)%template_inv & [= <-])%bind_Normal.
    unfold socket_leave. rewrite members_del, decide_False; [done|].
    intros <-. by eapply Hroom.
  - unfold on_typing.
    intros (_ & _ & (r & _ & [= <-])%bind_Normal)%bind_Normal.
    apply members_broadcast.
  - unfold on_join_stream.
    intros (r & (s & _ & ->)%template_inv & (r' & _ & [= <-])%bind_Normal)%bind_Normal.
    unfold socket_to_emit. rewrite socket_join_connected by done.
    rewrite members_broadcast, members_addAll, decide_False; [done|].
    intros <-. by eapply Hroom.
  - unfold on_leave_stream.
    intros (r & (s & _ & ->)%template_inv & (r' & _ & [= <-])%bind_Normal)%bind_Normal.
    unfold socket_to_emit, socket_leave.
    rewrite members_broadcast, members_del, decide_False; [done|].
    intros <-. by eapply Hroom.
  - unfold on_stream_chat.
    intros (_ & _ & (r & _ & [= <-])%bind_Normal)%bind_Normal.
    apply members_broadcast.
  - unfold on_stream_reaction.
    intros (_ & _ & (r & _ & [= <-])%bind_Normal)%bind_Normal.
    apply members_broadcast.
Qed.

Lemma events_stay_in_their_namespace_witness :
  members (addAll "X" "conversation:s1" alone) "stream:s1"
  = members alone "stream:s1".
Proof.
  apply (events_stay_in_their_namespace alone "X"
           (join_conversation (JStr "s1"))).
  - vm_compute. reflexivity.
  - intros s. discriminate.
Defined.

(** X6.  In every state the server reaches from start, each member of a
    room is a connected socket, and a socket is a member of a room
    exactly when the room is listed among the socket's rooms. *)
Theorem reachable_states_are_consistent σ :
  reachable σ →
  (∀ room id, id ∈ members σ room → id ∈ sockets σ)
  ∧ (∀ room id, id ∈ members σ room ↔ room ∈ membershipsOf σ id).
Proof. intros [Hc Hm]%reachable_wf. by split. Qed.

Lemma reachable_states_are_consistent_witness :
  (∀ room id, id ∈ members joined room → id ∈ sockets joined)
  ∧ (∀ room id, id ∈ members joined room ↔ room ∈ membershipsOf joined id).
Proof.
  apply (reachable_states_are_consistent joined).
  exists [Connect "X"; Connect "Y";
          Emit "X" (join (JStr "u1"));
          Emit "X" (join_conversation (JStr "c1"));
          Emit "Y" (join_conversation (JStr "c1"))].
  vm_compute. reflexivity.
Defined.

(** X7.  One event sends any client at most one packet.  join,
    join-conversation and leave-conversation send nothing to anyone;
    typing, join-stream and leave-stream send nothing to the socket the
    event came from. *)
Theorem event_sends_at_most_one_packet σ X ev σ' c :
  dispatch X ev σ = Normal σ' →
  (received σ' c = received σ c ∨ ∃ p, received σ' c = (received σ c ++ [p])%list)
  ∧ (emits_nothing ev = true → received σ' c = received σ c)
  ∧ (spares_sender ev = true → received σ' X = received σ X).
Proof.
  unfold dispatch. case_decide as HX; [|intros [= <-]; auto].
  assert (Hb : ∀ room except p σ0,
             received σ0 c = received σ c →
             received (broadcast room except p σ0) c = received σ c
             ∨ ∃ q, received (broadcast room except p σ0) c
                    = (received σ c ++ [q])%list).
  { intros room except p σ0 H0. rewrite received_broadcast, H0.
    case_decide; eauto. }
  assert (Hx : ∀ room p σ0,
             received σ0 X = received σ X →
             received (broadcast room {[X]} p σ0) X = received σ X).
  { intros room p σ0 H0. rewrite skipped; [done|]. right; left. set_solver. }
  handler_cases; (split; [|split]); try done; try discriminate;
    first [ by left | by apply Hb | by intros _; apply Hx ].
Qed.

Lemma event_sends_at_most_one_packet_witness :
  (received (broadcast "conversation:c1" {[ "A" ]}
               (mkPacket "user-typing"
                  (JObj [("userId", JStr "u1"); ("isTyping", JBool true)]))
               conversation) "B"
   = received conversation "B"
   ∨ ∃ p, received (broadcast "conversation:c1" {[ "A" ]}
                      (mkPacket "user-typing"
                         (JObj [("userId", JStr "u1"); ("isTyping", JBool true)]))
                      conversation) "B"
          = (received conversation "B" ++ [p])%list)
  ∧ (emits_nothing (typing typing_on) = true →
     received (broadcast "conversation:c1" {[ "A" ]}
                 (mkPacket "user-typing"
                    (JObj [("userId", JStr "u1"); ("isTyping", JBool true)]))
                 conversation) "B"
     = received conversation "B")
  ∧ (spares_sender (typing typing_on) = true →
     received (broadcast "conversation:c1" {[ "A" ]}
                 (mkPacket "user-typing"
                    (JObj [("userId", JStr "u1"); ("isTyping", JBool true)]))
                 conversation) "A"
     = received conversation "A").
Proof.
  apply (event_sends_at_most_one_packet conversation "A" (typing typing_on)).
  vm_compute. reflexivity.
Defined.

(** ** More on toJSON *)

Section ToJSONMore.
Implicit Types (k : string) (fields : list (string * JSValue)) (v : JSValue).

Lemma own_delete_own k k' fields :
  own (delete_own k' fields) k = if decide (k = k') then None else own fields k.
Proof.
  unfold delete_own. induction fields as [|[k0 v0] rest IH]; simpl.
  - by case_decide.
  - rewrite filter_cons. simpl. destruct (decide (k0 ≠ k')) as [Hne|Heq%dec_stable]; simpl.
    + rewrite IH. repeat case_decide; subst; done.
    + subst k0. rewrite IH. repeat case_decide; subst; done.
Qed.

Lemma delete_own_idemp k fields :
  delete_own k (delete_own k fields) = delete_own k fields.
Proof. unfold delete_own. apply list_filter_filter_l. tauto. Qed.

Lemma delete_own_comm k k' fields :
  delete_own k (delete_own k' fields) = delete_own k' (delete_own k fields).
Proof.
  unfold delete_own. rewrite !list_filter_filter. apply list_filter_iff. tauto.
Qed.

Lemma delete_own_fmap_keys k (f : string * JSValue → string * JSValue) fields :
  (∀ kv, (f kv).1 = kv.1) →
  delete_own k (f <$> fields) = f <$> delete_own k fields.
Proof.
  intros Hf. unfold delete_own. induction fields as [|kv rest IH]; [done|].
  rewrite fmap_cons, !filter_cons, Hf.
  destruct (decide (kv.1 ≠ k)); [rewrite fmap_cons|]; by rewrite IH.
Qed.

Lemma truthy_delete_prop k v : truthy (delete_prop k v) = truthy v.
Proof. by destruct v. Qed.

Lemma delete_prop_idemp k v : delete_prop k (delete_prop k v) = delete_prop k v.
Proof. destruct v; simpl; try done. by rewrite delete_own_idemp. Qed.

Lemma delete_prop_comm k k' v :
  delete_prop k (delete_prop k' v) = delete_prop k' (delete_prop k v).
Proof. destruct v; simpl; try done. by rewrite delete_own_comm. Qed.

Lemma truthy_strip_provider v : truthy (strip_provider v) = truthy v.
Proof.
  unfold strip_provider. destruct (truthy v) eqn:Ht; [|done].
  by rewrite !truthy_delete_prop.
Qed.

Lemma strip_provider_idemp v : strip_provider (strip_provider v) = strip_provider v.
Proof.
  unfold strip_provider at 1. rewrite truthy_strip_provider.
  unfold strip_provider. destruct (truthy v) eqn:Ht; [|done].
  destruct v; simpl; try done. f_equal. unfold delete_own.
  rewrite !list_filter_filter. apply list_filter_iff. tauto.
Qed.

Lemma truthy_strip_profile v : truthy (strip_profile v) = truthy v.
Proof. by destruct v. Qed.

Lemma strip_profile_idemp v : strip_profile (strip_profile v) = strip_profile v.
Proof.
  destruct v as [| | | | |elems|entries]; simpl; try done; f_equal;
    rewrite <- list_fmap_compose; apply list_fmap_ext.
  - intros ? e _. simpl. apply strip_provider_idemp.
  - intros ? [k e] _. simpl. by rewrite strip_provider_idemp.
Qed.

Lemma Get_delete_own_other k k' fields :
  k ≠ k' → Get (JObj (delete_own k' fields)) k = Get (JObj fields) k.
Proof. intros Hne. simpl. by rewrite own_delete_own, decide_False. Qed.
End ToJSONMore.

(** X8.  Serializing twice is serializing once: applying [toJSON] to its
    own result changes nothing. *)
Theorem toJSON_idempotent doc : toJSON (toJSON doc) = toJSON doc.
Proof.
  set (f := fun kv : string * JSValue =>
              if decide (kv.1 = "oauthProfile") then (kv.1, strip_profile kv.2) else kv).
  assert (Hf : ∀ kv, (f kv).1 = kv.1) by (intros [k v]; unfold f; simpl; by case_decide).
  set (obj := delete_own "backupCodes" (delete_own "twoFactorSecret"
                (delete_own "emailVerificationToken" (delete_own "resetPasswordToken"
                  (delete_own "password" doc))))).
  assert (Hdel : ∀ l, l = obj ∨ l = f <$> obj →
            delete_own "backupCodes" (delete_own "twoFactorSecret"
              (delete_own "emailVerificationToken" (delete_own "resetPasswordToken"
                (delete_own "password" l)))) = l).
  { assert (Hobj : delete_own "backupCodes" (delete_own "twoFactorSecret"
              (delete_own "emailVerificationToken" (delete_own "resetPasswordToken"
                (delete_own "password" obj)))) = obj).
    { unfold obj, delete_own. rewrite !list_filter_filter.
      apply list_filter_iff. tauto. }
    intros l [->| ->]; [done|].
    rewrite !(delete_own_fmap_keys _ f _ Hf). by rewrite Hobj. }
  assert (Hto : toJSON doc = if truthy (Get (JObj obj) "oauthProfile")
                             then f <$> obj else obj) by done.
  rewrite Hto. destruct (truthy (Get (JObj obj) "oauthProfile")) eqn:Ht.
  - unfold toJSON. rewrite Hdel by auto. fold f.
    unfold f at 1. rewrite Get_strip_oauthProfile, truthy_strip_profile, Ht.
    rewrite <- list_fmap_compose. apply list_fmap_ext. intros ? [k v] _.
    unfold f. simpl. destruct (decide (k = "oauthProfile")) as [->|Hne]; simpl.
    + by rewrite strip_profile_idemp.
    + by rewrite decide_False.
  - unfold toJSON. rewrite Hdel by auto. by rewrite Ht.
Qed.

Section ToJSONKeeps.
Implicit Types (k : string) (fields : list (string * JSValue)) (v : JSValue).

Lemma own_strip_other k fields :
  k ≠ "oauthProfile" →
  own ((fun kv => if decide (kv.1 = "oauthProfile")
                  then (kv.1, strip_profile kv.2) else kv) <$> fields) k
  = own fields k.
Proof.
  intros Hne. induction fields as [|[k0 v0] rest IH]; simpl; [done|].
  destruct (decide (k0 = "oauthProfile")) as [->|Hne0]; simpl.
  - rewrite !decide_False by done. apply IH.
  - case_decide; [done | apply IH].
Qed.

Lemma strip_profile_falsy v : truthy v = false → strip_profile v = v.
Proof. by destruct v. Qed.
End ToJSONKeeps.

(** X9.  [toJSON] removes nothing else: every property of the document
    other than the five it deletes and oauthProfile is in the result
    with its value, oauthProfile is the document's with each provider
    entry stripped, and a stripped entry keeps every property other than
    accessToken, refreshToken and accessSecret. *)
Theorem toJSON_keeps_the_rest doc k entry k' :
  k ∉ ["password"; "resetPasswordToken"; "emailVerificationToken";
       "twoFactorSecret"; "backupCodes"; "oauthProfile"] →
  k' ∉ ["accessToken"; "refreshToken"; "accessSecret"] →
  own (toJSON doc) k = own doc k
  ∧ Get (JObj (toJSON doc)) "oauthProfile"
    = strip_profile (Get (JObj doc) "oauthProfile")
  ∧ Get (strip_provider entry) k' = Get entry k'.
Proof.
  intros Hk Hk'.
  assert (Hobj : ∀ j, j ∉ ["password"; "resetPasswordToken"; "emailVerificationToken";
                           "twoFactorSecret"; "backupCodes"] →
            own (delete_own "backupCodes" (delete_own "twoFactorSecret"
              (delete_own "emailVerificationToken" (delete_own "resetPasswordToken"
                (delete_own "password" doc))))) j = own doc j).
  { intros j Hj. rewrite !own_delete_own.
    repeat case_decide; subst; try done; set_solver. }
  split; [|split].
  - unfold toJSON. case_match.
    + rewrite own_strip_other by set_solver. apply Hobj. set_solver.
    + apply Hobj. set_solver.
  - unfold toJSON. case_match eqn:Ht.
    + rewrite Get_strip_oauthProfile. simpl. rewrite Hobj; [done|].
      set_solver.
    + simpl in *. rewrite Hobj in * by set_solver.
      by rewrite strip_profile_falsy.
  - unfold strip_provider. case_match; [|done].
    destruct entry; simpl; try done.
    rewrite !own_delete_own. repeat case_decide; subst; try done; set_solver.
Qed.

Lemma toJSON_keeps_the_rest_witness :
  own (toJSON sample_user) "email" = own sample_user "email"
  ∧ Get (JObj (toJSON sample_user)) "oauthProfile"
    = strip_profile (Get (JObj sample_user) "oauthProfile")
  ∧ Get (strip_provider (JObj [("id", JStr "g-1"); ("accessToken", JStr "ya29")])) "id"
    = Get (JObj [("id", JStr "g-1"); ("accessToken", JStr "ya29")]) "id".
Proof.
  apply (toJSON_keeps_the_rest sample_user "email"
           (JObj [("id", JStr "g-1"); ("accessToken", JStr "ya29")]) "id").
  - vm_compute. intros H. repeat (inversion H as [|? ? ? H']; subst; clear H; rename H' into H).
  - vm_compute. intros H. repeat (inversion H as [|? ? ? H']; subst; clear H; rename H' into H).
Defined.

(** ** Methods and hooks of the User model *)

Import UserMethods.

Section Providers.
Implicit Types (M : NestedPath) (d : Doc) (p q : Provider) (l : list Provider).

Lemma linkProvider_result M d p data l :
  linkedProviders d = Some l →
  ∃ d', linkProvider M p data d = Normal d'
    ∧ linkedProviders d' = Some (if bool_decide (p ∈ l) then l else (l ++ [p])%list)
    ∧ password d' = password d
    ∧ oauthProvider d' = oauthProvider d
    ∧ oauthId d' = oauthId d.
Proof.
  intros Hl. unfold linkProvider.
  destruct (negb (profile_truthy M (oauthProfile d))); simpl; rewrite Hl; simpl;
    destruct (bool_decide (p ∈ l)); simpl; eexists; repeat split; done.
Qed.

(** X10.  [linkProvider] on a document whose linkedProviders is an
    array: the provider is in the array afterwards; it is appended at the
    end when it was missing and the array is left as it is when it was
    there, so no duplicate is introduced; password, oauthProvider and
    oauthId are not touched.  This is so whatever the document makes of
    the reads of and assignments to oauthProfile. *)
Theorem linkProvider_links M d p data l :
  linkedProviders d = Some l →
  ∃ d' l', linkProvider M p data d = Normal d'
    ∧ linkedProviders d' = Some l'
    ∧ p ∈ l'
    ∧ (∀ q, q ∈ l' ↔ q ∈ l ∨ q = p)
    ∧ l `prefix_of` l'
    ∧ (NoDup l → NoDup l')
    ∧ (p ∈ l → l' = l)
    ∧ (p ∉ l → l' = (l ++ [p])%list)
    ∧ password d' = password d
    ∧ oauthProvider d' = oauthProvider d
    ∧ oauthId d' = oauthId d.
Proof.
  intros Hl.
  destruct (linkProvider_result M d p data l Hl) as (d' & Hlink & Hl' & Hpw & Hp & Hi).
  exists d'. case_bool_decide as Hin.
  - exists l. repeat split; try done; set_solver.
  - exists (l ++ [p])%list. repeat split; try done.
    + set_solver.
    + set_solver.
    + set_solver.
    + by apply prefix_app_r.
    + intros Hnd. apply NoDup_app. repeat split; [done | set_solver | apply NoDup_singleton].
Qed.

Lemma linkProvider_links_witness :
  ∃ d' l',
    linkProvider plain_object google JNull
      (mkDoc (Some "ada@example.org") None (Some "hash") None None None
             (Some [email]) 0 0) = Normal d'
    ∧ linkedProviders d' = Some l'
    ∧ google ∈ l'
    ∧ (∀ q, q ∈ l' ↔ q ∈ [email] ∨ q = google)
    ∧ [email] `prefix_of` l'
    ∧ (NoDup [email] → NoDup l')
    ∧ (google ∈ [email] → l' = [email])
    ∧ (google ∉ [email] → l' = ([email] ++ [google])%list)
    ∧ password d' = Some "hash"
    ∧ oauthProvider d' = None
    ∧ oauthId d' = None.
Proof.
  apply (linkProvider_links plain_object
           (mkDoc (Some "ada@example.org") None (Some "hash") None None None
                  (Some [email]) 0 0) google JNull [email]).
  reflexivity.
Defined.

Lemma unlinkProvider_result M d p l :
  linkedProviders d = Some l →
  ∃ d', unlinkProvider M p d = Normal d'
    ∧ linkedProviders d' = Some (filter (fun q => q <> p) l)
    ∧ (oauthProvider d = Some p → oauthProvider d' = None ∧ oauthId d' = None)
    ∧ (oauthProvider d ≠ Some p →
         oauthProvider d' = oauthProvider d ∧ oauthId d' = oauthId d)
    ∧ password d' = password d.
Proof.
  intros Hl. unfold unlinkProvider.
  set (d1 := if profile_truthy M (oauthProfile d)
                && truthy (entry_read M (oauthProfile d) p)
             then with_oauthProfile (entry_write M p JUndefined (oauthProfile d)) d
             else d).
  assert (H1 : linkedProviders d1 = Some l ∧ oauthProvider d1 = oauthProvider d
               ∧ oauthId d1 = oauthId d ∧ password d1 = password d).
  { unfold d1.
    by destruct (profile_truthy M (oauthProfile d)
                 && truthy (entry_read M (oauthProfile d) p)). }
  destruct H1 as (Hl1 & Hp1 & Hi1 & Hpw1). rewrite Hl1. simpl.
  destruct (decide (oauthProvider d1 = Some p)) as [Heq|Hne];
    eexists; simpl; (split; [done|]); (split; [done|]).
  - split; [done|]. split; [intros Hd; congruence|]. done.
  - split; [intros Hd; congruence|]. done.
Qed.

(** X11.  [unlinkProvider] on a document whose linkedProviders is an
    array removes every occurrence of the provider from linkedProviders
    and keeps the others in order; it clears oauthProvider and oauthId
    exactly when the provider was the primary one; the password is not
    touched.  Nothing makes it refuse: the last provider of an account
    can be unlinked.  This is so whatever the document makes of the
    reads of and the assignment to oauthProfile. *)
Theorem unlinkProvider_unlinks M d p l :
  linkedProviders d = Some l →
  ∃ d' l', unlinkProvider M p d = Normal d'
    ∧ linkedProviders d' = Some l'
    ∧ l' = filter (fun q => q <> p) l
    ∧ (p ∉ l')
    ∧ (∀ q, q ≠ p → q ∈ l' ↔ q ∈ l)
    ∧ l' `sublist_of` l
    ∧ (oauthProvider d = Some p → oauthProvider d' = None ∧ oauthId d' = None)
    ∧ (oauthProvider d ≠ Some p →
         oauthProvider d' = oauthProvider d ∧ oauthId d' = oauthId d)
    ∧ password d' = password d.
Proof.
  intros Hl.
  destruct (unlinkProvider_result M d p l Hl)
    as (d' & Hun & Hl' & Hprim & Hkeep & Hpw).
  assert (Hfilter : ∀ q, q ∈ filter (λ x, x ≠ p) l ↔ q ∈ l ∧ q ≠ p).
  { intros q. rewrite list_elem_of_filter. tauto. }
  exists d', (filter (λ x, x ≠ p) l).
  split; [done|]. split; [done|]. split; [done|].
  split; [rewrite Hfilter; tauto|].
  split; [intros q ?; rewrite Hfilter; tauto|].
  split; [apply sublist_filter|].
  done.
Qed.
End Providers.

Lemma unlinkProvider_unlinks_witness :
  ∃ d' l',
    unlinkProvider plain_object google
      (mkDoc (Some "ada@example.org") (Some "ada") None (Some google) (Some "g-1")
             None (Some [google]) 0 0) = Normal d'
    ∧ linkedProviders d' = Some l'
    ∧ l' = filter (fun q => q <> google) [google]
    ∧ (google ∉ l')
    ∧ (∀ q, q ≠ google → q ∈ l' ↔ q ∈ [google])
    ∧ l' `sublist_of` [google]
    ∧ (Some google = Some google → oauthProvider d' = None ∧ oauthId d' = None)
    ∧ (Some google ≠ Some google →
         oauthProvider d' = Some google ∧ oauthId d' = Some "g-1")
    ∧ password d' = None.
Proof.
  apply (unlinkProvider_unlinks plain_object
           (mkDoc (Some "ada@example.org") (Some "ada") None (Some google) (Some "g-1")
                  None (Some [google]) 0 0) google [google]).
  reflexivity.
Defined.

Lemma filter_keeps_all {A} (P : A → Prop) `{!∀ x, Decision (P x)} (l : list A) :
  Forall P l → filter P l = l.
Proof.
  induction 1 as [|x l Hx _ IH]; [done|].
  by rewrite filter_cons_True, IH.
Qed.

(** X12.  Linking a provider that was not linked and unlinking it again
    gives back the linkedProviders and the password the document had,
    and the primary provider when it is another one. *)
Theorem link_then_unlink_restores (M : NestedPath) d p data l :
  linkedProviders d = Some l → p ∉ l →
  ∃ d1 d2, linkProvider M p data d = Normal d1
    ∧ unlinkProvider M p d1 = Normal d2
    ∧ linkedProviders d2 = Some l
    ∧ password d2 = password d
    ∧ (oauthProvider d ≠ Some p →
         oauthProvider d2 = oauthProvider d ∧ oauthId d2 = oauthId d).
Proof.
  intros Hl Hnin.
  destruct (linkProvider_result M d p data l Hl)
    as (d1 & Hlink & Hl1 & Hpw1 & Hp1 & Hi1).
  rewrite bool_decide_eq_false_2 in Hl1 by done.
  destruct (unlinkProvider_result M d1 p (l ++ [p]) Hl1)
    as (d2 & Hunlink & Hl2 & _ & Hkeep & Hpw2).
  exists d1, d2. split; [done|]. split; [done|]. split; [|split].
  - rewrite Hl2. f_equal.
    rewrite filter_app, filter_cons, decide_False by tauto.
    rewrite filter_nil, app_nil_r.
    apply filter_keeps_all, Forall_forall. intros q Hq ->. done.
  - congruence.
  - intros Hne. rewrite <- Hp1, <- Hi1. apply Hkeep. congruence.
Qed.

Lemma link_then_unlink_restores_witness :
  ∃ d1 d2,
    linkProvider plain_object twitter (JObj [("id", JStr "t-1")])
      (mkDoc (Some "ada@example.org") (Some "ada") (Some "hash") None None None
             (Some [email; google]) 0 0) = Normal d1
    ∧ unlinkProvider plain_object twitter d1 = Normal d2
    ∧ linkedProviders d2 = Some [email; google]
    ∧ password d2 = Some "hash"
    ∧ (None ≠ Some twitter → oauthProvider d2 = None ∧ oauthId d2 = None).
Proof.
  apply (link_then_unlink_restores plain_object
           (mkDoc (Some "ada@example.org") (Some "ada") (Some "hash") None None None
                  (Some [email; google]) 0 0)
           twitter (JObj [("id", JStr "t-1")]) [email; google]).
  - reflexivity.
  - rewrite !elem_of_cons. intros [H|[H|H]]; [discriminate | discriminate |].
    by apply elem_of_nil in H.
Defined.

(** X13.  The linkedProviders hook on a new document: the array exists
    afterwards, extends the one the document had, holds the primary OAuth
    provider when there is one and "email" when there is a password, and
    nothing else new; it gets no duplicate; [canUsePassword] then answers
    whether the document has a password; running the hook again changes
    nothing; on a document that is not new the hook does nothing. *)
Theorem initLinkedProviders_new d :
  ∃ l', linkedProviders (initLinkedProviders true d) = Some l'
    ∧ default [] (linkedProviders d) `prefix_of` l'
    ∧ (∀ q, q ∈ l' ↔ q ∈ default [] (linkedProviders d)
                      ∨ oauthProvider d = Some q
                      ∨ (q = email ∧ set_path (password d) = true))
    ∧ (NoDup (default [] (linkedProviders d)) → NoDup l')
    ∧ canUsePassword (initLinkedProviders true d) = Normal (set_path (password d))
    ∧ initLinkedProviders true (initLinkedProviders true d) = initLinkedProviders true d
    ∧ initLinkedProviders false d = d.
Proof.
  set (l := default [] (linkedProviders d)).
  set (l1 := match oauthProvider d with
             | Some p => if bool_decide (p ∈ l) then l else (l ++ [p])%list
             | None => l
             end).
  set (l2 := if set_path (password d) && negb (bool_decide (email ∈ l1))
             then (l1 ++ [email])%list else l1).
  assert (H1 : l `prefix_of` l1 ∧ (NoDup l → NoDup l1)
               ∧ ∀ q, q ∈ l1 ↔ q ∈ l ∨ oauthProvider d = Some q).
  { unfold l1. destruct (oauthProvider d) as [p|].
    - case_bool_decide.
      + repeat split; [done | done | |]; [tauto | intros [?|[= <-]]; done].
      + split; [by apply prefix_app_r|]. split.
        * intros Hnd. apply NoDup_app. repeat split; [done | set_solver | apply NoDup_singleton].
        * intros q. rewrite elem_of_app, list_elem_of_singleton.
          split; [intros [?| ->]; auto | intros [?|[= ->]]; auto].
    - repeat split; [done | done | |]; [tauto | intros [?|?]; done]. }
  destruct H1 as (Hpre1 & Hnd1 & Hin1).
  assert (H2 : l1 `prefix_of` l2 ∧ (NoDup l1 → NoDup l2)
               ∧ (∀ q, q ∈ l2 ↔ q ∈ l1 ∨ (q = email ∧ set_path (password d) = true))
               ∧ (set_path (password d) = true → email ∈ l2)).
  { unfold l2. destruct (set_path (password d)) eqn:Hpw; simpl.
    - case_bool_decide; simpl.
      + repeat split; try done; [tauto | intros [?|[-> _]]; done].
      + split; [by apply prefix_app_r|]. split; [|split].
        * intros Hnd. apply NoDup_app. repeat split; [done | set_solver | apply NoDup_singleton].
        * intros q. rewrite elem_of_app, list_elem_of_singleton. tauto.
        * set_solver.
    - repeat split; try done; [tauto | intros [?|[_ ?]]; done]. }
  destruct H2 as (Hpre2 & Hnd2 & Hin2 & Hemail).
  assert (Hinit : initLinkedProviders true d = with_linkedProviders (Some l2) d) by done.
  exists l2. split; [by rewrite Hinit|]. split; [by etrans|]. split; [|split; [|split; [|split]]].
  - intros q. rewrite Hin2, Hin1. tauto.
  - auto.
  - rewrite Hinit. unfold canUsePassword. simpl.
    destruct (set_path (password d)) eqn:Hpw; [|done].
    simpl. by rewrite bool_decide_eq_true_2 by auto.
  - rewrite Hinit. unfold initLinkedProviders. simpl.
    unfold with_linkedProviders. simpl. f_equal. f_equal.
    assert (Hl1' : match oauthProvider d with
                   | Some p => if bool_decide (p ∈ l2) then l2 else (l2 ++ [p])%list
                   | None => l2
                   end = l2).
    { destruct (oauthProvider d) as [p|] eqn:Hp; [|done].
      rewrite bool_decide_eq_true_2; [done|]. apply Hin2. left. apply Hin1. auto. }
    rewrite Hl1'.
    destruct (set_path (password d)) eqn:Hpw; [|done]. simpl.
    by rewrite bool_decide_eq_true_2 by auto.
  - done.
Qed.

(** X14.  After [unlinkProvider('email')], [canUsePassword] answers
    false although the password is still stored. *)
Theorem unlinking_email_disables_password (M : NestedPath) d l :
  linkedProviders d = Some l →
  ∃ d', unlinkProvider M email d = Normal d'
    ∧ canUsePassword d' = Normal false
    ∧ password d' = password d.
Proof.
  intros Hl.
  destruct (unlinkProvider_result M d email l Hl)
    as (d' & Hun & Hl' & _ & _ & Hpw).
  exists d'. split; [done|]. split; [|done].
  unfold canUsePassword. destruct (set_path (password d')); [|done].
  rewrite Hl'. simpl. rewrite bool_decide_eq_false_2; [done|].
  rewrite list_elem_of_filter. tauto.
Qed.

Lemma unlinking_email_disables_password_witness :
  ∃ d',
    unlinkProvider plain_object email
      (mkDoc (Some "ada@example.org") (Some "ada") (Some "hash") None None None
             (Some [email; google]) 0 0) = Normal d'
    ∧ canUsePassword d' = Normal false
    ∧ password d' = Some "hash".
Proof.
  apply (unlinking_email_disables_password plain_object
           (mkDoc (Some "ada@example.org") (Some "ada") (Some "hash") None None None
                  (Some [email; google]) 0 0) [email; google]).
  reflexivity.
Defined.

(** X15.  The follower-count hook: when followerCount was modified both
    counters end equal to followerCount, also when followersCount was
    modified too; when only followersCount was modified both end equal to
    followersCount; when neither was, nothing changes.  The outcome does
    not depend on whether the hook's own assignment counts as a
    modification. *)
Theorem syncFollowerCounts_outcome modFollower modFollowers marked d :
  syncFollowerCounts modFollower modFollowers marked d
  = if modFollower then with_counts (followerCount d) (followerCount d) d
    else if modFollowers then with_counts (followersCount d) (followersCount d) d
    else d.
Proof.
  unfold syncFollowerCounts.
  destruct modFollower, modFollowers, marked; simpl; try done.
Qed.

Section Username.
Implicit Types (taken : gset string) (base s t : string) (k i j fuel : nat).

Lemma string_length_app s t :
  String.length (s ++ t) = String.length s + String.length t.
Proof. induction s as [|c s IH]; simpl; [done|]. by rewrite IH. Qed.

Lemma string_all_app P s t :
  string_all P (s ++ t) = string_all P s && string_all P t.
Proof. induction s as [|c s IH]; simpl; [done|]. by rewrite IH, andb_assoc. Qed.

Lemma pretty_N_go_digits (x : N) s :
  string_all is_lower_alnum s = true →
  string_all is_lower_alnum (pretty_N_go x s) = true.
Proof.
  revert s. induction (N.lt_wf_0 x) as [x _ IH]; intros s Hs.
  destruct (decide (x = 0)%N) as [->|Hx].
  - by rewrite pretty_N_go_0.
  - rewrite pretty_N_go_step by lia. apply IH.
    + apply N.div_lt; lia.
    + simpl. rewrite Hs, andb_true_r.
      unfold pretty_N_char. by repeat case_match.
Qed.

Lemma pretty_N_go_length (x : N) s :
  (String.length s ≤ String.length (pretty_N_go x s))%nat.
Proof.
  revert s. induction (N.lt_wf_0 x) as [x _ IH]; intros s.
  destruct (decide (x = 0)%N) as [->|Hx].
  - by rewrite pretty_N_go_0.
  - rewrite pretty_N_go_step by lia.
    etrans; [|apply IH; apply N.div_lt; lia]. simpl. lia.
Qed.

Lemma pretty_nat_digits k : string_all is_lower_alnum (pretty k) = true.
Proof.
  unfold pretty, pretty_nat, pretty, pretty_N. case_decide; [done|].
  by apply pretty_N_go_digits.
Qed.

Lemma pretty_nat_nonempty k : 0 < String.length (pretty k).
Proof.
  unfold pretty, pretty_nat, pretty, pretty_N. case_decide; [simpl; lia|].
  rewrite pretty_N_go_step by lia.
  eapply Nat.lt_le_trans; [|apply pretty_N_go_length]. simpl. lia.
Qed.

Lemma keep_lower_alnum_all s : string_all is_lower_alnum (keep_lower_alnum s) = true.
Proof.
  induction s as [|c s IH]; simpl; [done|].
  destruct (is_lower_alnum c) eqn:Hc; simpl; [by rewrite Hc|done].
Qed.

Lemma candidate_inj base : Inj (=) (=) (candidate base).
Proof.
  assert (Hne : ∀ k, base ≠ base ++ pretty (S k)).
  { intros k Heq. apply (f_equal String.length) in Heq.
    rewrite string_length_app in Heq.
    pose proof (pretty_nat_nonempty (S k)). lia. }
  intros [|j] [|k]; simpl; intros Heq.
  - done.
  - by apply Hne in Heq.
  - symmetry in Heq. by apply Hne in Heq.
  - apply (inj (String.app base)) in Heq. by apply (inj pretty) in Heq.
Qed.

Lemma candidate_all base k :
  string_all is_lower_alnum base = true →
  string_all is_lower_alnum (candidate base k) = true.
Proof.
  intros Hb. destruct k; simpl; [done|].
  by rewrite string_all_app, Hb, pretty_nat_digits.
Qed.

(** The names tried so far are distinct, so there cannot be more of them
    than names taken. *)
Lemma tried_bound taken base i :
  (∀ j, j < i → candidate base j ∈ taken) → (i ≤ size taken)%nat.
Proof.
  intros Hall.
  assert (Hsub : list_to_set (candidate base <$> seq 0 i) ⊆ taken).
  { intros x. rewrite elem_of_list_to_set, list_elem_of_fmap.
    intros (j & -> & Hj%elem_of_seq). apply Hall. lia. }
  apply subseteq_size in Hsub.
  rewrite size_list_to_set in Hsub.
  - by rewrite length_fmap, length_seq in Hsub.
  - apply NoDup_fmap; [apply candidate_inj | apply NoDup_seq].
Qed.

Lemma findFree_first_free taken base fuel : ∀ i,
  (∀ j, j < i → candidate base j ∈ taken) →
  size taken < i + fuel →
  ∃ k, (i ≤ k)%nat
    ∧ findFree taken base (candidate base i) (S i) fuel = Some (candidate base k)
    ∧ (candidate base k ∉ taken)
    ∧ ∀ j, j < k → candidate base j ∈ taken.
Proof.
  induction fuel as [|fuel IH]; intros i Hall Hfuel.
  - apply tried_bound in Hall. lia.
  - simpl. destruct (decide (candidate base i ∈ taken)) as [Hin|Hnin].
    + destruct (IH (S i)) as (k & Hk & Hrun & Hfree & Hbefore).
      * intros j Hj. destruct (decide (j = i)) as [->|]; [done|]. apply Hall. lia.
      * lia.
      * exists k. split; [lia|]. done.
    + exists i. done.
Qed.
End Username.

(** X16.  The username hook, for a document with an email and no
    username, and with more iterations allowed than there are usernames
    taken: the loop ends; the username it sets is the first of base,
    base1, base2, ... that no stored document has, base being the local
    part of the email lowercased and stripped to [a-z0-9]; at most as many
    names are skipped as are taken; and the username has no character
    outside [a-z0-9]. *)
Theorem autoUsername_first_free toLowerCase taken fuel d addr :
  email_address d = Some addr → addr ≠ "" →
  set_path (username d) = false →
  size taken < fuel →
  ∃ k, autoUsername toLowerCase taken fuel d
       = Some (with_username (Some (candidate (baseUsername toLowerCase addr) k)) d)
    ∧ (candidate (baseUsername toLowerCase addr) k ∉ taken)
    ∧ (∀ j, j < k → candidate (baseUsername toLowerCase addr) j ∈ taken)
    ∧ (k ≤ size taken)%nat
    ∧ string_all is_lower_alnum (candidate (baseUsername toLowerCase addr) k) = true.
Proof.
  intros Haddr Hne Huser Hfuel.
  destruct (findFree_first_free taken (baseUsername toLowerCase addr) fuel 0)
    as (k & _ & Hrun & Hfree & Hbefore); [lia | lia |].
  exists k. split; [|split; [done|split; [done|split]]].
  - unfold autoUsername. rewrite Haddr, Huser. simpl.
    rewrite bool_decide_eq_false_2 by done. simpl.
    simpl in Hrun. by rewrite Hrun.
  - by apply (tried_bound taken (baseUsername toLowerCase addr)).
  - apply candidate_all, keep_lower_alnum_all.
Qed.

Lemma autoUsername_first_free_witness :
  ∃ k, autoUsername (fun s => s) {[ "ada"; "ada1"; "ada3" ]} 4
         (mkDoc (Some "ada@example.org") None (Some "hash") None None None
                (Some []) 0 0)
       = Some (with_username
                 (Some (candidate (baseUsername (fun s => s) "ada@example.org") k))
                 (mkDoc (Some "ada@example.org") None (Some "hash") None None None
                        (Some []) 0 0))
    ∧ (candidate (baseUsername (fun s => s) "ada@example.org") k
       ∉ ({[ "ada"; "ada1"; "ada3" ]} : gset string))
    ∧ (∀ j, j < k → candidate (baseUsername (fun s => s) "ada@example.org") j
                    ∈ ({[ "ada"; "ada1"; "ada3" ]} : gset string))
    ∧ (k ≤ size ({[ "ada"; "ada1"; "ada3" ]} : gset string))%nat
    ∧ string_all is_lower_alnum
        (candidate (baseUsername (fun s => s) "ada@example.org") k) = true.
Proof.
  apply (autoUsername_first_free (fun s => s) {[ "ada"; "ada1"; "ada3" ]} 4
           (mkDoc (Some "ada@example.org") None (Some "hash") None None None
                  (Some []) 0 0) "ada@example.org").
  - reflexivity.
  - discriminate.
  - reflexivity.
  - vm_compute. lia.
Defined.

Example autoUsername_sample :
  username <$> autoUsername (fun s => s) {[ "ada"; "ada1"; "ada3" ]} 4
                 (mkDoc (Some "ada.l_99@example.org") None None None None None None 0 0)
  = Some (Some "adal99")
  ∧ username <$> autoUsername (fun s => s) {[ "ada"; "ada1"; "ada3" ]} 4
                   (mkDoc (Some "ada@example.org") None None None None None None 0 0)
    = Some (Some "ada2")
  ∧ username <$> autoUsername (fun s => s) ∅ 1
                   (mkDoc (Some "___@example.org") None None None None None None 0 0)
    = Some (Some "").
Proof. vm_compute. repeat split; reflexivity. Qed.

(** ** The pre-save hooks of the Post model *)

Section Hashtags.
Import Post.
Implicit Types (s t w pre post text m : string) (l seen : list string).

Lemma string_app_cons c s t : String c s ++ t = String c (s ++ t).
Proof. done. Qed.

Lemma string_app_nil_l t : "" ++ t = t.
Proof. done. Qed.

Lemma hash_not_word : is_word "#" = false.
Proof. done. Qed.

Lemma drop_word_length s : (String.length (drop_word s) ≤ String.length s)%nat.
Proof.
  induction s as [|c s IH]; simpl; [done|].
  destruct (is_word c); simpl; lia.
Qed.

Lemma scan_drop_word s : scan (drop_word s) = scan s.
Proof.
  induction s as [|c s IH]; simpl; [done|].
  destruct (is_word c) eqn:Hc; [|done].
  rewrite decide_False; [done|]. intros ->. by rewrite hash_not_word in Hc.
Qed.

Lemma matchAll_scan fuel : ∀ s,
  (String.length s ≤ fuel)%nat → matchAll fuel s = scan s.
Proof.
  induction fuel as [|fuel IH]; intros [|c s] Hlen; simpl in *; try done; [lia|].
  case_decide.
  - destruct (word_prefix s) eqn:Hw.
    + apply IH. lia.
    + f_equal. rewrite IH; [apply scan_drop_word|].
      pose proof (drop_word_length s). lia.
  - apply IH. lia.
Qed.

Lemma hashtagMatches_scan text : hashtagMatches text = scan text.
Proof. by apply matchAll_scan. Qed.

Lemma word_prefix_all s : all_chars is_word (word_prefix s) = true.
Proof.
  induction s as [|c s IH]; simpl; [done|].
  destruct (is_word c) eqn:Hc; simpl; [by rewrite Hc|done].
Qed.

Lemma word_prefix_app w post :
  all_chars is_word w = true → word_prefix post = "" →
  word_prefix (w ++ post) = w.
Proof.
  intros Hw Hpost. induction w as [|c w IH]; [done|].
  simpl in Hw. apply andb_true_iff in Hw as [Hc Hw].
  rewrite string_app_cons. simpl. by rewrite Hc, IH.
Qed.

Lemma word_prefix_drop_word s : s = word_prefix s ++ drop_word s.
Proof.
  induction s as [|c s IH]; simpl; [done|].
  destruct (is_word c); [|done]. rewrite string_app_cons. by f_equal.
Qed.

(** Every match is "#" followed by a non-empty run of word characters,
    and stands in the text. *)
Lemma scan_shape s m :
  m ∈ scan s →
  ∃ pre w post, s = pre ++ String "#" (w ++ post) ∧ m = String "#" w
                ∧ w ≠ "" ∧ all_chars is_word w = true.
Proof.
  induction s as [|c s IH]; simpl; [by intros ?%elem_of_nil|].
  assert (Hrest : m ∈ scan s →
            ∃ pre w post, String c s = pre ++ String "#" (w ++ post)
                          ∧ m = String "#" w ∧ w ≠ "" ∧ all_chars is_word w = true).
  { intros (pre & w & post & Hs & Hm)%IH. exists (String c pre), w, post.
    split; [|done]. rewrite string_app_cons. by f_equal. }
  case_decide as Hc; [|done]. subst c.
  destruct (word_prefix s) as [|c0 w0] eqn:Hw; [done|].
  intros [->|Hin]%elem_of_cons; [|auto].
  exists "", (String c0 w0), (drop_word s).
  split; [|split; [done|split; [done|]]].
  - rewrite string_app_nil_l. f_equal. rewrite <- Hw. apply word_prefix_drop_word.
  - rewrite <- Hw. apply word_prefix_all.
Qed.

Lemma scan_suffix pre t m : m ∈ scan t → m ∈ scan (pre ++ t).
Proof.
  intros Hm. induction pre as [|c pre IH]; [done|].
  rewrite string_app_cons. simpl. case_decide; [|done].
  destruct (word_prefix (pre ++ t)); [done|]. by apply list_elem_of_further.
Qed.

Lemma scan_delimited pre w post :
  w ≠ "" → all_chars is_word w = true → word_prefix post = "" →
  String "#" w ∈ scan (pre ++ String "#" (w ++ post)).
Proof.
  intros Hne Hw Hpost. apply scan_suffix. simpl.
  rewrite word_prefix_app by done.
  destruct w; [done|]. apply list_elem_of_here.
Qed.

Lemma scan_no_hash s :
  all_chars (fun c => negb (bool_decide (c = "#"%char))) s = true → scan s = [].
Proof.
  induction s as [|c s IH]; simpl; [done|].
  intros [Hc Hs]%andb_true_iff. apply negb_true_iff, bool_decide_eq_false in Hc.
  rewrite decide_False by done. auto.
Qed.

Lemma lower_char_tag c : is_word c = true → is_tag_char (lower_char c) = true.
Proof. destruct c as [[] [] [] [] [] [] [] []]; vm_compute; done. Qed.

Lemma lower_word_tag w :
  all_chars is_word w = true → all_chars is_tag_char (lower_word w) = true.
Proof.
  induction w as [|c w IH]; simpl; [done|].
  intros [Hc Hw]%andb_true_iff. by rewrite lower_char_tag, IH.
Qed.

Lemma elem_of_uniq_from seen l x :
  x ∈ uniq_from seen l ↔ x ∈ l ∧ x ∉ seen.
Proof.
  revert seen. induction l as [|y l IH]; intros seen; simpl.
  - rewrite elem_of_nil. tauto.
  - destruct (decide (y ∈ seen)) as [Hy|Hy].
    + rewrite IH, elem_of_cons. naive_solver.
    + rewrite !elem_of_cons, IH, not_elem_of_cons.
      destruct (decide (x = y)) as [->|Hne]; naive_solver.
Qed.

Lemma NoDup_uniq_from seen l : NoDup (uniq_from seen l).
Proof.
  revert seen. induction l as [|y l IH]; intros seen; simpl.
  - constructor.
  - destruct (decide (y ∈ seen)); [apply IH|]. constructor; [|apply IH].
    rewrite elem_of_uniq_from, elem_of_cons. naive_solver.
Qed.

Lemma elem_of_uniq l x : x ∈ uniq l ↔ x ∈ l.
Proof.
  unfold uniq. rewrite elem_of_uniq_from. split; [tauto|].
  intros H. split; [done|]. by intros ?%elem_of_nil.
Qed.
End Hashtags.

(** X17.  The hashtag hook, content modified: a tag written in the text
    as "#" followed by word characters and then by a non-word character
    or the end is stored, lowercased; the stored hashtags have no
    duplicate; each is non-empty, made of [a-z0-9_] only, and is the
    lowercase of a "#word" standing in the text, so the hashtags the post
    had before are replaced. *)
Theorem extractHashtags_finds_tags d text pre w post :
  Post.content d = Some text →
  text = pre ++ String "#" (w ++ post) →
  w ≠ "" → Post.all_chars Post.is_word w = true → Post.word_prefix post = "" →
  Post.lower_word w ∈ Post.hashtags (Post.extractHashtags true d)
  ∧ NoDup (Post.hashtags (Post.extractHashtags true d))
  ∧ Forall (fun tag => tag ≠ "" ∧ Post.all_chars Post.is_tag_char tag = true
                       ∧ ∃ pre' w' post',
                           text = pre' ++ String "#" (w' ++ post')
                           ∧ tag = Post.lower_word w')
      (Post.hashtags (Post.extractHashtags true d)).
Proof.
  intros Hc -> Hne Hw Hpost.
  set (text := pre ++ String "#" (w ++ post)) in *.
  assert (Hin : String "#" w ∈ Post.hashtagMatches text).
  { rewrite hashtagMatches_scan. by apply scan_delimited. }
  assert (Htext : text ≠ "").
  { unfold text. destruct pre; done. }
  assert (Hd : Post.hashtags (Post.extractHashtags true d)
               = Post.uniq ((fun tag => Post.lower_word (Post.slice1 tag))
                              <$> Post.hashtagMatches text)).
  { unfold Post.extractHashtags. rewrite Hc. simpl.
    rewrite bool_decide_eq_false_2 by done. simpl.
    destruct (Post.hashtagMatches text) eqn:Hm; [by apply elem_of_nil in Hin|done]. }
  rewrite Hd. split; [|split].
  - apply elem_of_uniq, list_elem_of_fmap. by exists (String "#" w).
  - apply NoDup_uniq_from.
  - apply Forall_forall. intros tag Htag.
    apply elem_of_uniq, list_elem_of_fmap in Htag as (m & -> & Hm).
    rewrite hashtagMatches_scan in Hm.
    apply scan_shape in Hm as (pre' & w' & post' & Htxt & -> & Hne' & Hw').
    simpl. split; [by destruct w'|]. split; [by apply lower_word_tag|].
    by exists pre', w', post'.
Qed.

Lemma extractHashtags_finds_tags_witness :
  Post.lower_word "Rocq"
  ∈ Post.hashtags (Post.extractHashtags true
      (Post.mkDoc (Some "u1") None (Some "Proved in #Rocq today") ["old"]
                  (Some []) 0 (Some []) 0))
  ∧ NoDup (Post.hashtags (Post.extractHashtags true
      (Post.mkDoc (Some "u1") None (Some "Proved in #Rocq today") ["old"]
                  (Some []) 0 (Some []) 0)))
  ∧ Forall (fun tag => tag ≠ "" ∧ Post.all_chars Post.is_tag_char tag = true
                       ∧ ∃ pre' w' post',
                           "Proved in #Rocq today" = pre' ++ String "#" (w' ++ post')
                           ∧ tag = Post.lower_word w')
      (Post.hashtags (Post.extractHashtags true
         (Post.mkDoc (Some "u1") None (Some "Proved in #Rocq today") ["old"]
                     (Some []) 0 (Some []) 0))).
Proof.
  apply (extractHashtags_finds_tags
           (Post.mkDoc (Some "u1") None (Some "Proved in #Rocq today") ["old"]
                       (Some []) 0 (Some []) 0)
           "Proved in #Rocq today" "Proved in " "Rocq" " today").
  - reflexivity.
  - reflexivity.
  - discriminate.
  - reflexivity.
  - reflexivity.
Defined.

(** X18.  The hashtag hook never clears: when the text has no "#" at
    all the post is left as it is, hashtags included, although the
    content was modified; and so it is when the content was not
    modified. *)
Theorem extractHashtags_keeps_stale_tags contentModified d text :
  Post.content d = Some text →
  Post.all_chars (fun c => negb (bool_decide (c = "#"%char))) text = true →
  Post.extractHashtags contentModified d = d
  ∧ Post.extractHashtags false d = d.
Proof.
  intros Hc Hno. unfold Post.extractHashtags. rewrite Hc.
  rewrite hashtagMatches_scan, scan_no_hash by done. simpl.
  split; [by case_match | done].
Qed.

Lemma extractHashtags_keeps_stale_tags_witness :
  Post.extractHashtags true
    (Post.mkDoc (Some "u1") (Some "u1") (Some "no tags any more") ["rocq"]
                (Some []) 0 (Some []) 0)
  = Post.mkDoc (Some "u1") (Some "u1") (Some "no tags any more") ["rocq"]
               (Some []) 0 (Some []) 0
  ∧ Post.extractHashtags false
      (Post.mkDoc (Some "u1") (Some "u1") (Some "no tags any more") ["rocq"]
                  (Some []) 0 (Some []) 0)
    = Post.mkDoc (Some "u1") (Some "u1") (Some "no tags any more") ["rocq"]
                 (Some []) 0 (Some []) 0.
Proof.
  apply (extractHashtags_keeps_stale_tags true
           (Post.mkDoc (Some "u1") (Some "u1") (Some "no tags any more") ["rocq"]
                       (Some []) 0 (Some []) 0)
           "no tags any more").
  - reflexivity.
  - reflexivity.
Defined.

(** X19.  After the three pre-save hooks of a post, likeCount is the
    length of likes and commentCount the length of comments whenever
    those arrays are there; author and authorId are both set or both
    unset, neither having been overwritten; content, likes and comments
    are untouched. *)
Theorem preSave_establishes contentModified d :
  (∀ l, Post.likes d = Some l →
        Post.likeCount (Post.preSave contentModified d) = Z.of_nat (length l))
  ∧ (∀ l, Post.comments d = Some l →
          Post.commentCount (Post.preSave contentModified d) = Z.of_nat (length l))
  ∧ (Post.author (Post.preSave contentModified d) = None
     ↔ Post.authorId (Post.preSave contentModified d) = None)
  ∧ (∀ a, Post.author d = Some a →
          Post.author (Post.preSave contentModified d) = Some a)
  ∧ (∀ a, Post.authorId d = Some a →
          Post.authorId (Post.preSave contentModified d) = Some a)
  ∧ Post.content (Post.preSave contentModified d) = Post.content d
  ∧ Post.likes (Post.preSave contentModified d) = Post.likes d
  ∧ Post.comments (Post.preSave contentModified d) = Post.comments d.
Proof.
  assert (Hsync : ∀ d0,
    Post.content (Post.syncAuthor d0) = Post.content d0
    ∧ Post.likes (Post.syncAuthor d0) = Post.likes d0
    ∧ Post.comments (Post.syncAuthor d0) = Post.comments d0
    ∧ (Post.author (Post.syncAuthor d0) = None
       ↔ Post.authorId (Post.syncAuthor d0) = None)
    ∧ (∀ a, Post.author d0 = Some a → Post.author (Post.syncAuthor d0) = Some a)
    ∧ (∀ a, Post.authorId d0 = Some a →
            Post.authorId (Post.syncAuthor d0) = Some a)).
  { intros [[a|] [ai|] c h lk lc cm cc]; cbv; naive_solver. }
  assert (Htags : ∀ d0,
    Post.author (Post.extractHashtags contentModified d0) = Post.author d0
    ∧ Post.authorId (Post.extractHashtags contentModified d0) = Post.authorId d0
    ∧ Post.content (Post.extractHashtags contentModified d0) = Post.content d0
    ∧ Post.likes (Post.extractHashtags contentModified d0) = Post.likes d0
    ∧ Post.comments (Post.extractHashtags contentModified d0) = Post.comments d0).
  { intros d0. unfold Post.extractHashtags.
    destruct (Post.content d0) as [text|] eqn:Hc; [|done].
    destruct (contentModified && negb (bool_decide (text = ""))); [|done].
    by destruct (Post.hashtagMatches text). }
  assert (Hcounts : ∀ d0,
    Post.author (Post.updateCounts d0) = Post.author d0
    ∧ Post.authorId (Post.updateCounts d0) = Post.authorId d0
    ∧ Post.content (Post.updateCounts d0) = Post.content d0
    ∧ Post.likes (Post.updateCounts d0) = Post.likes d0
    ∧ Post.comments (Post.updateCounts d0) = Post.comments d0
    ∧ (∀ l, Post.likes d0 = Some l →
            Post.likeCount (Post.updateCounts d0) = Z.of_nat (length l))
    ∧ (∀ l, Post.comments d0 = Some l →
            Post.commentCount (Post.updateCounts d0) = Z.of_nat (length l))).
  { intros [a ai c h [lk|] lc [cm|] cc]; cbv [Post.updateCounts Post.author
      Post.authorId Post.content Post.likes Post.comments Post.likeCount
      Post.commentCount Post.hashtags]; naive_solver. }
  unfold Post.preSave.
  destruct (Hsync d) as (Hs1 & Hs2 & Hs3 & Hs4 & Hs5 & Hs6).
  destruct (Htags (Post.syncAuthor d)) as (Ht1 & Ht2 & Ht3 & Ht4 & Ht5).
  destruct (Hcounts (Post.extractHashtags contentModified (Post.syncAuthor d)))
    as (Hu1 & Hu2 & Hu3 & Hu4 & Hu5 & Hu6 & Hu7).
  rewrite Hu1, Hu2, Hu3, Hu4, Hu5, Ht1, Ht2, Ht3, Ht4, Ht5, Hs1, Hs2, Hs3.
  repeat split; try done.
  - intros l Hl. apply Hu6. by rewrite Ht4, Hs2.
  - intros l Hl. apply Hu7. by rewrite Ht5, Hs3.
  - apply Hs4.
  - apply Hs4.
Qed.

Example hashtags_sample :
  Post.hashtags (Post.extractHashtags true
    (Post.mkDoc None None (Some "Hello #World and #world, #a_b#C2 ## #") []
                None 0 None 0))
  = ["world"; "a_b"; "c2"].
Proof. vm_compute. reflexivity. Qed.

(** ** The auth middleware and the profile update of
       routes/user-profile.routes.js *)

Section Authorization.
Import ProfileRoutes.
Implicit Types (s t scheme token rest : string).

Lemma split_on_nonempty sep s : UserMethods.split_on sep s ≠ [].
Proof.
  induction s as [|c s IH]; simpl; [done|].
  case_decide; [done|]. by destruct (UserMethods.split_on sep s).
Qed.

Lemma split_on_no_sep sep s :
  UserMethods.string_all (fun c => negb (bool_decide (c = sep))) s = true →
  UserMethods.split_on sep s = [s].
Proof.
  induction s as [|c s IH]; simpl; [done|].
  intros [Hc Hs]%andb_true_iff. apply negb_true_iff, bool_decide_eq_false in Hc.
  rewrite decide_False by done. by rewrite IH.
Qed.

Lemma split_on_app sep s t :
  UserMethods.string_all (fun c => negb (bool_decide (c = sep))) s = true →
  UserMethods.split_on sep (s ++ String sep t) = s :: UserMethods.split_on sep t.
Proof.
  induction s as [|c s IH]; intros Hs.
  - simpl. by rewrite decide_True.
  - simpl in Hs. apply andb_true_iff in Hs as [Hc Hs].
    apply negb_true_iff, bool_decide_eq_false in Hc.
    change (String c s ++ String sep t) with (String c (s ++ String sep t)).
    simpl. rewrite decide_False by done. by rewrite IH.
Qed.

Lemma tokenOf_second scheme token rest :
  no_space scheme = true → no_space token = true →
  rest = "" ∨ (∃ r, rest = String " " r) →
  tokenOf (Some (scheme ++ String " " (token ++ rest))) = Some token.
Proof.
  intros Hs Ht Hrest. unfold tokenOf. rewrite split_on_app by done.
  destruct Hrest as [->|[r ->]].
  - assert (token ++ "" = token) as ->.
    { clear. induction token as [|c t IH]; [done|].
      change (String c t ++ "") with (String c (t ++ "")). by rewrite IH. }
    by rewrite split_on_no_sep.
  - by rewrite split_on_app.
Qed.
End Authorization.

(** X20.  verifyToken answers 401 "No token provided", without calling
    jwt.verify, when there is no Authorization header, when the header
    has no space, when it ends at its first space, and when two spaces
    follow its first word (the second segment is then empty). *)
Theorem verifyToken_needs_second_segment jwt_verify JWT_SECRET scheme rest :
  ProfileRoutes.no_space scheme = true →
  let no_token :=
    ProfileRoutes.Respond 401
      (JObj [("ok", JBool false); ("error", JStr "No token provided")]) in
  ProfileRoutes.verifyToken jwt_verify JWT_SECRET None = no_token
  ∧ ProfileRoutes.verifyToken jwt_verify JWT_SECRET (Some scheme) = no_token
  ∧ ProfileRoutes.verifyToken jwt_verify JWT_SECRET (Some (scheme ++ " ")) = no_token
  ∧ ProfileRoutes.verifyToken jwt_verify JWT_SECRET
      (Some (scheme ++ String " " (String " " rest))) = no_token.
Proof.
  intros Hs no_token. unfold ProfileRoutes.verifyToken, ProfileRoutes.tokenOf.
  split; [done|]. split; [by rewrite split_on_no_sep|].
  split.
  - by rewrite (split_on_app " " scheme "").
  - rewrite (split_on_app " " scheme (String " " rest)) by done. simpl.
    by destruct (UserMethods.split_on " " rest).
Qed.

Lemma verifyToken_needs_second_segment_witness :
  ProfileRoutes.no_space "Bearer" = true
  ∧ ProfileRoutes.verifyToken (fun _ _ => Normal (JObj [("id", JStr "u1")]))
      (Some "s3cret") (Some "Bearer  abc")
    = ProfileRoutes.Respond 401
        (JObj [("ok", JBool false); ("error", JStr "No token provided")]).
Proof.
  split; [reflexivity|].
  apply (verifyToken_needs_second_segment
           (fun _ _ => Normal (JObj [("id", JStr "u1")])) (Some "s3cret")
           "Bearer" "abc").
  reflexivity.
Defined.

(** X21.  For a header of the form "<scheme> <token>" or
    "<scheme> <token> <more>", with a non-empty token, verifyToken
    verifies exactly <token>, whatever the scheme word is (it is not
    compared with "Bearer"), against JWT_SECRET or, when that variable
    is unset or empty, against the built-in "cybev-secret-key"; it hands
    the decoded payload on, and answers 401 "Invalid token" when
    jwt.verify throws. *)
Theorem verifyToken_reads_second_segment jwt_verify JWT_SECRET scheme token rest :
  ProfileRoutes.no_space scheme = true →
  ProfileRoutes.no_space token = true →
  token ≠ "" →
  rest = "" ∨ (∃ r, rest = String " " r) →
  let secret := match JWT_SECRET with
                | None | Some "" => "cybev-secret-key"
                | Some s => s
                end in
  ProfileRoutes.verifyToken jwt_verify JWT_SECRET
    (Some (scheme ++ String " " (token ++ rest)))
  = match jwt_verify token secret with
    | Normal decoded => ProfileRoutes.Next decoded
    | Throw _ =>
        ProfileRoutes.Respond 401
          (JObj [("ok", JBool false); ("error", JStr "Invalid token")])
    end.
Proof.
  intros Hs Ht Hne Hrest secret. unfold ProfileRoutes.verifyToken.
  rewrite tokenOf_second by done.
  destruct token as [|c token]; [done|].
  assert (ProfileRoutes.jwtSecret JWT_SECRET = secret) as ->; [|done].
  unfold ProfileRoutes.jwtSecret, secret.
  destruct JWT_SECRET as [[|c' s]|]; done.
Qed.

Lemma verifyToken_reads_second_segment_witness :
  ProfileRoutes.verifyToken
    (fun token secret =>
       if String.eqb token "abc.def" && String.eqb secret "cybev-secret-key"
       then Normal (JObj [("id", JStr "u1")])
       else Throw (TypeError "invalid signature"))
    None (Some "Basic abc.def trailing words")
  = ProfileRoutes.Next (JObj [("id", JStr "u1")]).
Proof.
  apply (verifyToken_reads_second_segment
           (fun token secret =>
              if String.eqb token "abc.def" && String.eqb secret "cybev-secret-key"
              then Normal (JObj [("id", JStr "u1")])
              else Throw (TypeError "invalid signature"))
           None "Basic" "abc.def" " trailing words").
  - reflexivity.
  - reflexivity.
  - discriminate.
  - right. eexists. reflexivity.
Defined.

Lemma elem_of_pick body k0 k v :
  (k, v) ∈ ProfileRoutes.pick body k0 ↔ k = k0 ∧ Get body k0 = v ∧ v ≠ JUndefined.
Proof.
  unfold ProfileRoutes.pick.
  destruct (Get body k0) eqn:E;
    rewrite ?elem_of_nil, ?list_elem_of_singleton; naive_solver.
Qed.

Lemma pick_keys body k0 :
  (ProfileRoutes.pick body k0).*1 = [] ∨ (ProfileRoutes.pick body k0).*1 = [k0].
Proof. unfold ProfileRoutes.pick. destruct (Get body k0); auto. Qed.

(** X22.  The update object of PUT /profile has a field exactly for
    those of name, bio, location and website that the body gives with a
    value other than undefined (null included), with the body's value,
    in that order; no other field of the body (role, isAdmin, ...) gets
    into it. *)
Theorem updateFields_whitelist body fields :
  ProfileRoutes.updateFields body = Normal fields →
  (∀ k v, (k, v) ∈ fields ↔
          k ∈ ["name"; "bio"; "location"; "website"]
          ∧ Get body k = v ∧ v ≠ JUndefined)
  ∧ fields.*1 `sublist_of` ["name"; "bio"; "location"; "website"].
Proof.
  unfold ProfileRoutes.updateFields. intros H.
  destruct (RequireObjectCoercible body) as [[]|e] eqn:Hb; [|done].
  simpl in H. injection H as <-. split.
  - intros k v. rewrite !elem_of_app, !elem_of_pick, !elem_of_cons, elem_of_nil.
    naive_solver.
  - rewrite !fmap_app.
    change ["name"; "bio"; "location"; "website"]
      with (["name"] ++ ["bio"] ++ ["location"] ++ ["website"])%list.
    repeat apply sublist_app;
      match goal with
      | |- (ProfileRoutes.pick body ?k).*1 `sublist_of` _ =>
          destruct (pick_keys body k) as [-> | ->];
          [apply sublist_nil_l | reflexivity]
      end.
Qed.

Lemma updateFields_whitelist_witness :
  (∀ k v, (k, v) ∈ [("name", JStr "Ada"); ("bio", JNull)] ↔
          k ∈ ["name"; "bio"; "location"; "website"]
          ∧ Get (JObj [("role", JStr "admin"); ("bio", JNull);
                       ("name", JStr "Ada"); ("isAdmin", JBool true)]) k = v
          ∧ v ≠ JUndefined)
  ∧ [("name", JStr "Ada"); ("bio", JNull)].*1
      `sublist_of` ["name"; "bio"; "location"; "website"].
Proof.
  apply (updateFields_whitelist
           (JObj [("role", JStr "admin"); ("bio", JNull);
                  ("name", JStr "Ada"); ("isAdmin", JBool true)])).
  reflexivity.
Defined.

(** ** The configuration flags of server.js and the health report *)

Section Configuration.
Import Config.
Implicit Types (env : Env).

Lemma truthy_env_get env k : truthy (env_get env k) = true ↔ is_set env k.
Proof.
  unfold env_get, is_set. destruct (env k) as [s|]; simpl.
  - rewrite negb_true_iff, bool_decide_eq_false. naive_solver.
  - naive_solver.
Qed.

Lemma truthy_js_and a b : truthy (js_and a b) = (truthy a && truthy b)%bool.
Proof. unfold js_and. by destruct (truthy a) eqn:E. Qed.

Lemma truthy_js_or a b : truthy (js_or a b) = (truthy a || truthy b)%bool.
Proof. unfold js_or. by destruct (truthy a) eqn:E. Qed.

Lemma HUBTEL_CONFIGURED_set env :
  HUBTEL_CONFIGURED env = true ↔
  is_set env "HUBTEL_CLIENT_ID" ∧ is_set env "HUBTEL_CLIENT_SECRET".
Proof.
  unfold HUBTEL_CONFIGURED.
  by rewrite truthy_js_and, andb_true_iff, !truthy_env_get.
Qed.

Lemma configuredPayments_flags env :
  configuredPayments env
  = ((if FLUTTERWAVE_CONFIGURED env then [JStr "Flutterwave"] else [])
     ++ (if PAYSTACK_CONFIGURED env then [JStr "Paystack"] else [])
     ++ (if STRIPE_CONFIGURED env then [JStr "Stripe"] else [])
     ++ (if HUBTEL_CONFIGURED env then [JStr "Hubtel"] else []))%list.
Proof.
  unfold configuredPayments.
  by destruct (FLUTTERWAVE_CONFIGURED env), (PAYSTACK_CONFIGURED env),
              (STRIPE_CONFIGURED env), (HUBTEL_CONFIGURED env).
Qed.
End Configuration.

(** X23.  configuredPayments lists a payment provider exactly when its
    secret is set to a non-empty string (for Hubtel: both the client id
    and the client secret), always in the order Flutterwave, Paystack,
    Stripe, Hubtel and each at most once; the false entries of the array
    literal never survive the filter. *)
Theorem configuredPayments_lists_the_configured (env : Config.Env) :
  (∀ v, v ∈ Config.configuredPayments env ↔
        v = JStr "Flutterwave" ∧ Config.is_set env "FLUTTERWAVE_SECRET_KEY"
        ∨ v = JStr "Paystack" ∧ Config.is_set env "PAYSTACK_SECRET_KEY"
        ∨ v = JStr "Stripe" ∧ Config.is_set env "STRIPE_SECRET_KEY"
        ∨ v = JStr "Hubtel" ∧ Config.is_set env "HUBTEL_CLIENT_ID"
                            ∧ Config.is_set env "HUBTEL_CLIENT_SECRET")
  ∧ Config.configuredPayments env
      `sublist_of` [JStr "Flutterwave"; JStr "Paystack"; JStr "Stripe";
                    JStr "Hubtel"].
Proof.
  rewrite configuredPayments_flags. split.
  - intros v.
    rewrite <- HUBTEL_CONFIGURED_set.
    rewrite <- !truthy_env_get.
    fold (Config.FLUTTERWAVE_CONFIGURED env) (Config.PAYSTACK_CONFIGURED env)
         (Config.STRIPE_CONFIGURED env).
    destruct (Config.FLUTTERWAVE_CONFIGURED env), (Config.PAYSTACK_CONFIGURED env),
             (Config.STRIPE_CONFIGURED env), (Config.HUBTEL_CONFIGURED env);
      simpl; rewrite ?elem_of_cons, ?elem_of_nil; naive_solver.
  - change [JStr "Flutterwave"; JStr "Paystack"; JStr "Stripe"; JStr "Hubtel"]
      with ([JStr "Flutterwave"] ++ [JStr "Paystack"] ++ [JStr "Stripe"]
            ++ [JStr "Hubtel"])%list.
    repeat apply sublist_app;
      match goal with
      | |- (if ?b then _ else _) `sublist_of` _ =>
          destruct b; [reflexivity | apply sublist_nil_l]
      end.
Qed.

(** X24.  The members of the /api/health body agree with each other:
    each payment flag is true exactly when the provider is in
    payments.configured; mobile.pushNotifications is true exactly when
    mobile.fcmVersion is not 'not configured', and fcmVersion is 'v1'
    as soon as FIREBASE_SERVICE_ACCOUNT is set, whether or not
    FCM_SERVER_KEY is; email.provider is 'brevo' exactly when
    email.configured; domainApi.features is empty exactly when
    domainApi.configured is false. *)
Theorem health_report_consistent (env : Config.Env) :
  let payments := Config.health_payments env in
  let mobile := Config.health_mobile env in
  let email := Config.health_email env in
  let domainApi := Config.health_domainApi env in
  let listed name := JStr name ∈ Config.configuredPayments env in
  (Get payments "flutterwave" = JBool true ↔ listed "Flutterwave")
  ∧ (Get payments "paystack" = JBool true ↔ listed "Paystack")
  ∧ (Get payments "stripe" = JBool true ↔ listed "Stripe")
  ∧ (Get payments "hubtel" = JBool true ↔ listed "Hubtel")
  ∧ Get payments "configured" = JArr (Config.configuredPayments env)
  ∧ (Get mobile "pushNotifications" = JBool true
     ↔ Get mobile "fcmVersion" ≠ JStr "not configured")
  ∧ (Get mobile "fcmVersion" = JStr "v1"
     ↔ Config.is_set env "FIREBASE_SERVICE_ACCOUNT")
  ∧ (Get email "provider" = JStr "brevo" ↔ Get email "configured" = JBool true)
  ∧ (Get domainApi "features" = JArr []
     ↔ Get domainApi "configured" = JBool false).
Proof.
  intros payments mobile email domainApi listed.
  change (Get payments "flutterwave") with (JBool (Config.FLUTTERWAVE_CONFIGURED env)).
  change (Get payments "paystack") with (JBool (Config.PAYSTACK_CONFIGURED env)).
  change (Get payments "stripe") with (JBool (Config.STRIPE_CONFIGURED env)).
  change (Get payments "hubtel") with (JBool (Config.HUBTEL_CONFIGURED env)).
  change (Get payments "configured") with (JArr (Config.configuredPayments env)).
  change (Get mobile "pushNotifications")
    with (JBool (truthy (Config.js_or (Config.env_get env "FIREBASE_SERVICE_ACCOUNT")
                                      (Config.env_get env "FCM_SERVER_KEY")))).
  change (Get mobile "fcmVersion")
    with (if truthy (Config.env_get env "FIREBASE_SERVICE_ACCOUNT") then JStr "v1"
          else if truthy (Config.env_get env "FCM_SERVER_KEY") then JStr "legacy"
          else JStr "not configured").
  change (Get email "provider") with (JStr (Config.EMAIL_PROVIDER env)).
  change (Get email "configured") with (JBool (Config.BREVO_CONFIGURED env)).
  change (Get domainApi "features")
    with (if Config.DOMAIN_API_CONFIGURED env
          then JArr [JStr "registration"; JStr "dns"; JStr "transfer";
                     JStr "renewal"]
          else JArr []).
  change (Get domainApi "configured") with (JBool (Config.DOMAIN_API_CONFIGURED env)).
  unfold listed, Config.EMAIL_PROVIDER.
  rewrite <- truthy_env_get, truthy_js_or, configuredPayments_flags.
  split_and!;
    repeat match goal with
           | |- context [truthy (Config.env_get env ?k)] =>
               destruct (truthy (Config.env_get env k))
           | |- context [?flag env] =>
               match type of (flag env) with bool => destruct (flag env) end
           end;
    simpl; rewrite ?elem_of_cons, ?elem_of_nil; naive_solver.
Qed.

(** ** Where a tapped notification leads (www/native-bridge.js) *)

Section Notifications.
Import NativeBridge.

Lemma is_str_spec v s : is_str v s = true ↔ v = JStr s.
Proof.
  destruct v; simpl; try (split; [discriminate | congruence]).
  rewrite bool_decide_eq_true. naive_solver.
Qed.

Lemma template_prefix prefix v href :
  (s ← template prefix v; Normal (Some s)) = Normal (Some href) →
  ∃ rest, href = prefix ++ rest.
Proof.
  unfold template. destruct (ToString v) as [s|e]; simpl; [|done].
  intros [= <-]. by exists s.
Qed.
End Notifications.

(** X25.  Whenever handleNotificationAction navigates, either the
    notification has one of the types message, follow, like, comment and
    live and the target is a path under /messages/, /profile/, /blog/ or
    /post/, and /live/ respectively, or the type is none of these and
    the target is the notification's url, which is then truthy.  So a
    notification of a known type never opens its url. *)
Theorem notification_targets (data : JSValue) (href : string) :
  NativeBridge.handleNotificationAction data = Normal (Some href) →
  let type := Get data "type" in
  (∃ rest,
     type = JStr "message" ∧ href = "/messages/" ++ rest
     ∨ type = JStr "follow" ∧ href = "/profile/" ++ rest
     ∨ (type = JStr "like" ∨ type = JStr "comment")
       ∧ (href = "/blog/" ++ rest ∨ href = "/post/" ++ rest)
     ∨ type = JStr "live" ∧ href = "/live/" ++ rest)
  ∨ ((∀ t, t ∈ NativeBridge.typed → type ≠ JStr t)
     ∧ truthy (Get data "url") = true
     ∧ ToString (Get data "url") = Normal href).
Proof.
  intros H type. unfold NativeBridge.handleNotificationAction in H.
  fold type in H.
  destruct (truthy data); simpl in H; [|done].
  destruct (NativeBridge.is_str type "message") eqn:E1.
  { apply is_str_spec in E1. apply template_prefix in H as [rest ->].
    left. exists rest. naive_solver. }
  destruct (NativeBridge.is_str type "follow") eqn:E2.
  { apply is_str_spec in E2. apply template_prefix in H as [rest ->].
    left. exists rest. naive_solver. }
  destruct (NativeBridge.is_str type "like" || NativeBridge.is_str type "comment")
    eqn:E3.
  { apply orb_true_iff in E3. rewrite !is_str_spec in E3.
    destruct (truthy (Get data "blogId")).
    { apply template_prefix in H as [rest ->]. left. exists rest. naive_solver. }
    destruct (truthy (Get data "postId")); [|done].
    apply template_prefix in H as [rest ->]. left. exists rest. naive_solver. }
  destruct (NativeBridge.is_str type "live") eqn:E4.
  { apply is_str_spec in E4. apply template_prefix in H as [rest ->].
    left. exists rest. naive_solver. }
  destruct (truthy (Get data "url")) eqn:E5; [|done].
  right. split; [|split; [done|]].
  - apply orb_false_iff in E3 as [E3 E3'].
    intros t Ht Heq. apply is_str_spec in Heq.
    unfold NativeBridge.typed in Ht.
    rewrite !elem_of_cons, elem_of_nil in Ht.
    destruct Ht as [->|[->|[->|[->|[->|[]]]]]]; congruence.
  - destruct (ToString (Get data "url")); simpl in H; congruence.
Qed.

Lemma notification_targets_witness :
  (∃ rest,
     Get NativeBridge.comment_on_post "type" = JStr "message"
     ∧ "/post/p7" = "/messages/" ++ rest
     ∨ Get NativeBridge.comment_on_post "type" = JStr "follow"
       ∧ "/post/p7" = "/profile/" ++ rest
     ∨ (Get NativeBridge.comment_on_post "type" = JStr "like"
        ∨ Get NativeBridge.comment_on_post "type" = JStr "comment")
       ∧ ("/post/p7" = "/blog/" ++ rest ∨ "/post/p7" = "/post/" ++ rest)
     ∨ Get NativeBridge.comment_on_post "type" = JStr "live"
       ∧ "/post/p7" = "/live/" ++ rest)
  ∨ ((∀ t, t ∈ NativeBridge.typed →
           Get NativeBridge.comment_on_post "type" ≠ JStr t)
     ∧ truthy (Get NativeBridge.comment_on_post "url") = true
     ∧ ToString (Get NativeBridge.comment_on_post "url") = Normal "/post/p7").
Proof.
  apply (notification_targets NativeBridge.comment_on_post "/post/p7").
  reflexivity.
Defined.

(** X26.  A notification of a known type that lacks its target never
    falls back on its url: a like or comment with neither blogId nor
    postId navigates nowhere, and a message, follow or live notification
    without (or with an empty) conversationId, userId or streamId opens
    the bare /messages/, /profile/ or /live/ path. *)
Theorem notification_without_target (data : JSValue) (t : string) :
  Get data "type" = JStr t →
  (t = "like" ∨ t = "comment" →
   truthy (Get data "blogId") = false → truthy (Get data "postId") = false →
   NativeBridge.handleNotificationAction data = Normal None)
  ∧ (t = "message" → truthy (Get data "conversationId") = false →
     NativeBridge.handleNotificationAction data = Normal (Some "/messages/"))
  ∧ (t = "follow" → truthy (Get data "userId") = false →
     NativeBridge.handleNotificationAction data = Normal (Some "/profile/"))
  ∧ (t = "live" → truthy (Get data "streamId") = false →
     NativeBridge.handleNotificationAction data = Normal (Some "/live/")).
Proof.
  intros Ht. unfold NativeBridge.handleNotificationAction.
  assert (truthy data = true) as ->.
  { destruct data; try discriminate Ht. reflexivity. }
  rewrite Ht. unfold NativeBridge.or_empty. simpl.
  split_and!.
  - intros [-> | ->] -> ->; reflexivity.
  - intros -> ->. reflexivity.
  - intros -> ->. reflexivity.
  - intros -> ->. reflexivity.
Qed.

Lemma notification_without_target_witness :
  NativeBridge.handleNotificationAction
    (JObj [("type", JStr "like"); ("url", JStr "https://example.org/x")])
  = Normal None.
Proof.
  apply (notification_without_target
           (JObj [("type", JStr "like"); ("url", JStr "https://example.org/x")])
           "like").
  - reflexivity.
  - left. reflexivity.
  - reflexivity.
  - reflexivity.
Defined.
